(** * EditTogether: the relay, the login form and the submit pipeline

    A shallow embedding of the three source files of the repository:
    - the WebSocket relay (the second half of [ChangeHistory.tsx]):
      the [rooms] map, the [connection], [message] and [close] handlers;
    - [Login.tsx]: [handleSubmit];
    - the collaborative editor component: the effects' cleanups,
      [dispatchTransaction], [handleLogin] and [handleSubmitChange].

    JavaScript strings are sequences of UTF-16 code units; they are
    modelled as lists of numbers so that [trim] sees every white-space
    code unit of the language, not only the ASCII ones. *)

From Stdlib Require Import ZArith NArith Ascii String DecimalString DecimalZ.
From stdpp Require Import gmap list strings fin_maps.

Local Open Scope N_scope.

(** ** JavaScript strings *)

Module JsString.

Abbreviation jsstring := (list N).

(** An ASCII literal as a sequence of code units. *)
Definition lit (s : string) : jsstring :=
  N_of_ascii <$> list_ascii_of_string s.

(** WhiteSpace and LineTerminator code units of ECMAScript: what
    [String.prototype.trim] strips. *)
Definition isWhiteSpace (c : N) : bool :=
  (9 <=? c) && (c <=? 13)               (* TAB LF VT FF CR *)
  || (c =? 32) || (c =? 160)            (* SP, NBSP *)
  || (c =? 5760)                        (* U+1680 *)
  || (8192 <=? c) && (c <=? 8202)       (* U+2000 .. U+200A *)
  || (c =? 8232) || (c =? 8233)         (* LS, PS *)
  || (c =? 8239) || (c =? 8287)         (* U+202F, U+205F *)
  || (c =? 12288) || (c =? 65279).      (* U+3000, BOM *)

Fixpoint trimStart (s : jsstring) : jsstring :=
  match s with
  | [] => []
  | c :: r => if isWhiteSpace c then trimStart r else s
  end.

Definition trimEnd (s : jsstring) : jsstring :=
  reverse (trimStart (reverse s)).

(** [s.trim()] *)
Definition trim (s : jsstring) : jsstring := trimEnd (trimStart s).

(** Truthiness of a string value: the empty string is falsy. *)
Definition truthy (s : jsstring) : bool :=
  match s with [] => false | _ :: _ => true end.

(** [s.split(sep)] for a separator of one code unit. The result is
    never empty: splitting the empty string gives one empty segment. *)
Fixpoint split (sep : N) (s : jsstring) : list jsstring :=
  match s with
  | [] => [[]]
  | c :: r =>
      if c =? sep then [] :: split sep r
      else match split sep r with
           | seg :: segs => (c :: seg) :: segs
           | [] => [[c]]
           end
  end.

(** [Number.prototype.toString()] of an integer: its decimal digits,
    with a minus sign when negative. *)
Definition toString (z : Z) : jsstring :=
  lit (NilZero.string_of_int (Z.to_int z)).

End JsString.

Import JsString.

(** ** Login.tsx *)

Module Login.

(** [handleSubmit]: the argument [onLogin] is called with, or [None]
    when the callback is not called. The [username] state is what the
    input field holds. *)
Definition handleSubmit (username : jsstring) : option jsstring :=
  if truthy (trim username) then Some (trim username) else None.

End Login.

(** ** The relay (server side of ChangeHistory.tsx) *)

Module Relay.

(** [ws.readyState] *)
Inductive ReadyState := CONNECTING | OPEN | CLOSING | CLOSED.

#[global] Instance ReadyState_eq_dec : EqDecision ReadyState.
Proof. solve_decision. Defined.

(** A WebSocket object and a [Set] object are known by their identity. *)
Abbreviation Conn := nat.
Abbreviation Ref := nat.
Abbreviation Frame := jsstring.

(** What the transport does with one call of [client.send]: the frame
    is written; or the write fails and the failure is reported on the
    recipient's own socket, outside the call; or the call raises. *)
Inductive SendOutcome := Sent | Failed | Throws.

#[global] Instance SendOutcome_eq_dec : EqDecision SendOutcome.
Proof. solve_decision. Defined.

(** One call of [send]: the socket, the data, the outcome. *)
Abbreviation SendCall := (Conn * Frame * SendOutcome)%type.

(** How a handler ends: it returns, or an exception leaves it (the
    relay has no [try]). *)
Inductive Completion := Returned | Raised.

(** An accepted socket with its handlers: [roomName] and [room] are the
    constants the closures of the [message] and [close] handlers hold;
    [room] is the Set object itself, not its name. *)
Record Socket := {
  readyState : ReadyState;
  roomName : jsstring;
  room : Ref;
}.

Record State := {
  sets : gmap Ref (list Conn);     (* the Set objects, in insertion order *)
  rooms : gmap jsstring Ref;       (* [const rooms = new Map()] *)
  sockets : gmap Conn Socket;
  calls : list SendCall;           (* every [send] so far, oldest first *)
}.

Definition init : State :=
  {| sets := ∅; rooms := ∅; sockets := ∅; calls := [] |}.

Definition slash : N := 47.
Definition default_room : jsstring := lit "default-room".

(** [req.url.split('/')[1] || 'default-room'] *)
Definition resolve_room (url : jsstring) : jsstring :=
  match split slash url !! 1%nat with
  | Some seg => if truthy seg then seg else default_room
  | None => default_room
  end.

(** [JSON.stringify({ type: 'status', status: 'connected' })] *)
Definition status_frame : Frame :=
  let q := [34] in
  lit "{" ++ q ++ lit "type" ++ q ++ lit ":" ++ q ++ lit "status" ++ q ++
  lit "," ++ q ++ lit "status" ++ q ++ lit ":" ++ q ++ lit "connected" ++ q ++
  lit "}".

(** [Set.prototype.add], [delete] on the members in insertion order. *)
Definition set_add (ws : Conn) (members : list Conn) : list Conn :=
  if decide (ws ∈ members) then members else members ++ [ws].

Definition set_delete (ws : Conn) (members : list Conn) : list Conn :=
  filter (λ c, c ≠ ws) members.

Definition members_of (st : State) (r : Ref) : list Conn :=
  default [] (sets st !! r).

Definition ready (st : State) (c : Conn) : ReadyState :=
  match sockets st !! c with
  | Some sk => readyState sk
  | None => CLOSED
  end.

(** The connection handler for the new socket [ws], up to the
    registration of its handlers. The status frame goes to a socket
    that has just been accepted. *)
Definition on_connection (st : State) (ws : Conn) (url : jsstring) : State :=
  let name := resolve_room url in
  let '(r, sets1, rooms1) :=
    match rooms st !! name with
    | Some r => (r, sets st, rooms st)
    | None =>
        let r := fresh (dom (sets st)) in
        (r, <[r := []]> (sets st), <[name := r]> (rooms st))
    end in
  {| sets := alter (set_add ws) r sets1;
     rooms := rooms1;
     sockets := <[ws := {| readyState := OPEN; roomName := name; room := r |}]>
                  (sockets st);
     calls := calls st ++ [(ws, status_frame, Sent)] |}.

(** [room.forEach(client => { if (...) client.send(message) })]:
    the calls made, and how the loop ends. A call that raises ends it. *)
Fixpoint forEach_send (st : State) (tx : Conn → SendOutcome) (ws : Conn)
    (message : Frame) (members : list Conn) : list SendCall * Completion :=
  match members with
  | [] => ([], Returned)
  | client :: rest =>
      if bool_decide (client ≠ ws ∧ ready st client = OPEN) then
        match tx client with
        | Throws => ([(client, message, Throws)], Raised)
        | o =>
            let '(cs, k) := forEach_send st tx ws message rest in
            ((client, message, o) :: cs, k)
        end
      else forEach_send st tx ws message rest
  end.

(** The [message] handler of socket [ws]. *)
Definition on_message (st : State) (ws : Conn) (sk : Socket)
    (message : Frame) (tx : Conn → SendOutcome) : State * Completion :=
  let '(cs, k) := forEach_send st tx ws message (members_of st (room sk)) in
  ({| sets := sets st; rooms := rooms st; sockets := sockets st;
      calls := calls st ++ cs |}, k).

(** The [close] handler of socket [ws]. *)
Definition on_close (st : State) (ws : Conn) (sk : Socket) : State :=
  let sets1 := alter (set_delete ws) (room sk) (sets st) in
  {| sets := sets1;
     rooms := if bool_decide (length (default [] (sets1 !! room sk)) = 0%nat)
              then delete (roomName sk) (rooms st) else rooms st;
     sockets := sockets st;
     calls := calls st |}.

Definition set_ready (c : Conn) (rs : ReadyState) (st : State) : State :=
  {| sets := sets st; rooms := rooms st;
     sockets := alter (λ sk, {| readyState := rs; roomName := roomName sk;
                                room := room sk |}) c (sockets st);
     calls := calls st |}.

(** What the WebSocket library does to the relay. A socket is accepted
    open; its closing handshake may start before it is closed; ['close']
    is emitted once, when the socket becomes closed, and no ['message']
    comes after it; ['error'] only logs. *)
Inductive Event :=
| Connection (url : jsstring)
| Message (ws : Conn) (message : Frame) (tx : Conn → SendOutcome)
| BeginClose (ws : Conn)
| Close (ws : Conn)
| Error (ws : Conn).

Definition dispatch (st : State) (ev : Event) : State * Completion :=
  match ev with
  | Connection url =>
      (on_connection st (fresh (dom (sockets st))) url, Returned)
  | Message ws message tx =>
      match sockets st !! ws with
      | Some sk =>
          if decide (readyState sk = CLOSED) then (st, Returned)
          else on_message st ws sk message tx
      | None => (st, Returned)
      end
  | BeginClose ws =>
      (if decide (ready st ws = OPEN) then set_ready ws CLOSING st else st,
       Returned)
  | Close ws =>
      match sockets st !! ws with
      | Some sk =>
          if decide (readyState sk = CLOSED) then (st, Returned)
          else (on_close (set_ready ws CLOSED st) ws sk, Returned)
      | None => (st, Returned)
      end
  | Error ws => (st, Returned)
  end.

(** The relay after a sequence of events. An exception that leaves a
    handler is taken not to stop the process: the states reached are
    then a superset of those of a relay that stops. *)
Definition run (st : State) (evs : list Event) : State :=
  foldl (λ s ev, (dispatch s ev).1) st evs.

End Relay.

(** ** The collaborative editor component (client side) *)

Module Editor.

(** [interface Change]; [color] is its [userColor] field, [timestamp]
    the time value of its [Date]. *)
Record Change := {
  id : jsstring;
  user : jsstring;
  color : jsstring;
  content : jsstring;
  timestamp : Z;
}.

(** The document of the editing framework, as far as the component
    reads it: the text of its blocks, in order. *)
Abbreviation Doc := (list jsstring).

(** [doc.textContent] *)
Definition textContent (d : Doc) : jsstring := concat d.

(** [mySchema.node('doc', null, [mySchema.node('paragraph', null, [])])] *)
Definition emptyDoc : Doc := [[]].

(** A transaction, by what applying it makes of the document. *)
Abbreviation Transaction := (Doc → Doc).

(** The [EditorView]: [doc] is [view.state.doc]; [currentView] tells
    whether the variable of that name, which [dispatchTransaction]
    reads, still holds the view. *)
Record View := {
  doc : Doc;
  currentView : bool;
  viewDestroyed : bool;
}.

(** The value of the awareness field [lastChange]. *)
Record LastChange := {
  lc_id : jsstring;
  lc_user : jsstring;
  lc_timestamp : Z;
  lc_content : jsstring;
}.

(** The [WebsocketProvider] with the local awareness state. *)
Record Provider := {
  pid : nat;
  aw_user : option (jsstring * jsstring);   (* name, color *)
  aw_lastChange : option LastChange;
}.

Record Component := {
  username : jsstring;
  userColor : jsstring;
  isConnected : bool;
  changes : list Change;
  showConfirmation : bool;
  hasContent : bool;
  editorRef : bool;                 (* [editorRef.current] is set *)
  viewRef : option View;
  ydocRef : bool;                   (* [ydocRef.current] is set *)
  wsProviderRef : option Provider;
  nextPid : nat;                    (* providers constructed so far *)
  destroyLog : list nat;            (* [provider.destroy()] calls, by provider *)
  alerts : nat;                     (* [alert(...)] calls *)
}.

Definition initial : Component :=
  {| username := []; userColor := []; isConnected := false; changes := [];
     showConfirmation := false; hasContent := false; editorRef := false;
     viewRef := None; ydocRef := false; wsProviderRef := None;
     nextPid := 0%nat; destroyLog := []; alerts := 0%nat |}.

Definition set_view (v : option View) (st : Component) : Component :=
  {| username := username st; userColor := userColor st;
     isConnected := isConnected st; changes := changes st;
     showConfirmation := showConfirmation st; hasContent := hasContent st;
     editorRef := editorRef st; viewRef := v; ydocRef := ydocRef st;
     wsProviderRef := wsProviderRef st; nextPid := nextPid st;
     destroyLog := destroyLog st; alerts := alerts st |}.

Definition set_provider (p : option Provider) (st : Component) : Component :=
  {| username := username st; userColor := userColor st;
     isConnected := isConnected st; changes := changes st;
     showConfirmation := showConfirmation st; hasContent := hasContent st;
     editorRef := editorRef st; viewRef := viewRef st; ydocRef := ydocRef st;
     wsProviderRef := p; nextPid := nextPid st;
     destroyLog := destroyLog st; alerts := alerts st |}.

Definition setHasContent (b : bool) (st : Component) : Component :=
  {| username := username st; userColor := userColor st;
     isConnected := isConnected st; changes := changes st;
     showConfirmation := showConfirmation st; hasContent := b;
     editorRef := editorRef st; viewRef := viewRef st; ydocRef := ydocRef st;
     wsProviderRef := wsProviderRef st; nextPid := nextPid st;
     destroyLog := destroyLog st; alerts := alerts st |}.

Definition setShowConfirmation (b : bool) (st : Component) : Component :=
  {| username := username st; userColor := userColor st;
     isConnected := isConnected st; changes := changes st;
     showConfirmation := b; hasContent := hasContent st;
     editorRef := editorRef st; viewRef := viewRef st; ydocRef := ydocRef st;
     wsProviderRef := wsProviderRef st; nextPid := nextPid st;
     destroyLog := destroyLog st; alerts := alerts st |}.

Definition setChanges (f : list Change → list Change) (st : Component)
    : Component :=
  {| username := username st; userColor := userColor st;
     isConnected := isConnected st; changes := f (changes st);
     showConfirmation := showConfirmation st; hasContent := hasContent st;
     editorRef := editorRef st; viewRef := viewRef st; ydocRef := ydocRef st;
     wsProviderRef := wsProviderRef st; nextPid := nextPid st;
     destroyLog := destroyLog st; alerts := alerts st |}.

(** [provider.destroy()] *)
Definition destroy (p : Provider) (st : Component) : Component :=
  {| username := username st; userColor := userColor st;
     isConnected := isConnected st; changes := changes st;
     showConfirmation := showConfirmation st; hasContent := hasContent st;
     editorRef := editorRef st; viewRef := viewRef st; ydocRef := ydocRef st;
     wsProviderRef := wsProviderRef st; nextPid := nextPid st;
     destroyLog := destroyLog st ++ [pid p]; alerts := alerts st |}.

(** [alert('Failed to submit change. Please try again.')] *)
Definition alert (st : Component) : Component :=
  {| username := username st; userColor := userColor st;
     isConnected := isConnected st; changes := changes st;
     showConfirmation := showConfirmation st; hasContent := hasContent st;
     editorRef := editorRef st; viewRef := viewRef st; ydocRef := ydocRef st;
     wsProviderRef := wsProviderRef st; nextPid := nextPid st;
     destroyLog := destroyLog st; alerts := S (alerts st) |}.

(** The effect that generates the user's color; [generated] is the
    string made from [Math.random()]. *)
Definition color_effect (generated : jsstring) (st : Component) : Component :=
  if truthy (userColor st) then st
  else
    {| username := username st; userColor := generated;
       isConnected := isConnected st; changes := changes st;
       showConfirmation := showConfirmation st; hasContent := hasContent st;
       editorRef := editorRef st; viewRef := viewRef st;
       ydocRef := ydocRef st; wsProviderRef := wsProviderRef st;
       nextPid := nextPid st; destroyLog := destroyLog st;
       alerts := alerts st |}.

(** [handleLogin], and the render that follows: the editor's element is
    there, and [editorRef.current] set, once [username] is not empty. *)
Definition handleLogin (name : jsstring) (st : Component) : Component :=
  {| username := name; userColor := userColor st;
     isConnected := isConnected st; changes := changes st;
     showConfirmation := showConfirmation st; hasContent := hasContent st;
     editorRef := truthy name; viewRef := viewRef st; ydocRef := ydocRef st;
     wsProviderRef := wsProviderRef st; nextPid := nextPid st;
     destroyLog := destroyLog st; alerts := alerts st |}.

(** The login form is submitted with [input] in its field. *)
Definition login (input : jsstring) (st : Component) : Component :=
  match Login.handleSubmit input with
  | Some name => handleLogin name st
  | None => st
  end.

(** The effect that initializes the editor (the calls into the
    libraries are taken to return). *)
Definition editor_effect (st : Component) : Component :=
  if negb (editorRef st) then st
  else if negb (truthy (username st)) then st
  else
    let p := match wsProviderRef st with
             | Some p => p
             | None => {| pid := nextPid st; aw_user := None;
                          aw_lastChange := None |}
             end in
    {| username := username st; userColor := userColor st;
       isConnected := isConnected st; changes := changes st;
       showConfirmation := showConfirmation st; hasContent := hasContent st;
       editorRef := editorRef st;
       viewRef := Some {| doc := emptyDoc; currentView := true;
                          viewDestroyed := false |};
       ydocRef := true;
       wsProviderRef :=
         Some {| pid := pid p;
                 aw_user := Some (username st, userColor st);
                 aw_lastChange := aw_lastChange p |};
       nextPid := match wsProviderRef st with
                  | Some _ => nextPid st
                  | None => S (nextPid st)
                  end;
       destroyLog := destroyLog st; alerts := alerts st |}.

(** The cleanup the editor effect returns. *)
Definition editor_cleanup (st : Component) : Component :=
  let st1 :=
    match viewRef st with
    | Some v =>
        if currentView v
        then set_view (Some {| doc := doc v; currentView := false;
                               viewDestroyed := true |}) st
        else st
    | None => st
    end in
  match wsProviderRef st1 with
  | Some p => set_provider None (destroy p st1)
  | None => st1
  end.

(** The cleanup of the connection-status effect:
    [wsProviderRef.current?.off(...); wsProviderRef.current?.destroy()]. *)
Definition status_cleanup (st : Component) : Component :=
  match wsProviderRef st with
  | Some p => destroy p st
  | None => st
  end.

(** Unmounting runs the cleanups in the order of the effects. *)
Definition unmount (st : Component) : Component :=
  editor_cleanup (status_cleanup st).

(** [dispatchTransaction], which [view.dispatch] calls. *)
Definition dispatchTransaction (tr : Transaction) (st : Component)
    : Component :=
  match viewRef st with
  | Some v =>
      if negb (currentView v) then st
      else
        let newDoc := tr (doc v) in
        let text := textContent newDoc in
        setHasContent (truthy text && truthy (trim text))
          (set_view (Some {| doc := newDoc; currentView := currentView v;
                             viewDestroyed := viewDestroyed v |}) st)
  | None => st
  end.

(** The Recent-Changes Store: the updater given to [setChanges],
    [prev => [newChange, ...prev].slice(0, 10)]. *)
Definition record (newChange : Change) (prev : list Change) : list Change :=
  take 10 (newChange :: prev).

(** What the panel renders. *)
Definition all (st : Component) : list Change := changes st.

(** [awareness.setLocalStateField('lastChange', ...)] *)
Definition announce (c : Change) (st : Component) : Component :=
  match wsProviderRef st with
  | Some p =>
      set_provider
        (Some {| pid := pid p; aw_user := aw_user p;
                 aw_lastChange :=
                   Some {| lc_id := id c; lc_user := username st;
                           lc_timestamp := timestamp c;
                           lc_content := content c |} |}) st
  | None => st
  end.

(** [handleSubmitChange]. [now] is what [Date.now()] returns and [date]
    the time of [new Date()]; [raises] tells whether building or
    dispatching the clearing transaction raises, which the handler
    catches. *)
Definition handleSubmitChange (now date : Z) (raises : bool)
    (st : Component) : Component :=
  match viewRef st with
  | None => st
  | Some view =>
      if negb (hasContent st) then st
      else
        let content := textContent (doc view) in
        if negb (truthy (trim content)) then st
        else
          let newChange :=
            {| id := toString now; user := username st;
               color := userColor st; content := content;
               timestamp := date |} in
          let st1 := setChanges (record newChange) st in
          if raises then alert st1
          else
            let st2 := dispatchTransaction (λ _, emptyDoc) st1 in
            let st3 := setHasContent false st2 in
            let st4 := setShowConfirmation true st3 in
            announce newChange st4
  end.

End Editor.

(** ** The component as its events drive it *)

Module Session.

Import Editor.

(** The digit [d] of [Number.prototype.toString(16)]: [0]-[9], [a]-[f]. *)
Definition hexDigit (d : N) : N := if d <? 10 then 48 + d else 87 + d.

Fixpoint toString16_fuel (fuel : nat) (n : N) : jsstring :=
  match fuel with
  | O => []
  | S fuel' =>
      (if n <? 16 then [] else toString16_fuel fuel' (n / 16))
      ++ [hexDigit (n mod 16)]
  end.

(** [n.toString(16)] for a natural number [n]; [n] has at most
    [log2 n + 1] digits. *)
Definition toString16 (n : N) : jsstring :=
  toString16_fuel (S (N.to_nat (N.log2 n))) n.

(** [`#${Math.floor(Math.random()*16777215).toString(16)}`], where [n]
    is the value of [Math.floor(Math.random()*16777215)]. *)
Definition generated_color (n : N) : jsstring := 35 :: toString16 n.

Definition setIsConnected (b : bool) (st : Component) : Component :=
  {| username := username st; userColor := userColor st;
     isConnected := b; changes := changes st;
     showConfirmation := showConfirmation st; hasContent := hasContent st;
     editorRef := editorRef st; viewRef := viewRef st; ydocRef := ydocRef st;
     wsProviderRef := wsProviderRef st; nextPid := nextPid st;
     destroyLog := destroyLog st; alerts := alerts st |}.

(** The ['status'] handlers: [setIsConnected(status === 'connected')]. *)
Definition on_status (status : jsstring) (st : Component) : Component :=
  setIsConnected (bool_decide (status = lit "connected")) st.

(** The ['connection-error'] handler. *)
Definition on_connection_error (st : Component) : Component :=
  setIsConnected false st.

(** What happens to a mounted component. The login form is rendered,
    and can be submitted, only while [username] is empty; the toolbar
    buttons, the keys and the sync plugin all go through
    [view.dispatch]. *)
Inductive Event :=
| ColorEffect (n : N)
| LoginSubmit (input : jsstring)
| EditorEffect
| EditorCleanup
| StatusCleanup
| Dispatch (tr : Transaction)
| Submit (now date : Z) (raises : bool)
| ConfirmationTimeout
| Status (status : jsstring)
| ConnectionError.

Definition step (st : Component) (ev : Event) : Component :=
  match ev with
  | ColorEffect n => color_effect (generated_color n) st
  | LoginSubmit input => if truthy (username st) then st else login input st
  | EditorEffect => editor_effect st
  | EditorCleanup => editor_cleanup st
  | StatusCleanup => status_cleanup st
  | Dispatch tr => dispatchTransaction tr st
  | Submit now date raises => handleSubmitChange now date raises st
  | ConfirmationTimeout => setShowConfirmation false st
  | Status status => on_status status st
  | ConnectionError => on_connection_error st
  end.

Definition run (st : Component) (evs : list Event) : Component :=
  foldl step st evs.

End Session.

(** ** Vocabulary of the statements

    Predicates the theorems are stated with, and the concrete runs the
    examples use. *)

Section vocabulary.

Import Relay Editor.

(** A string of white space only. *)
Definition blank (s : jsstring) : Prop := ∀ c, c ∈ s → isWhiteSpace c = true.

(** Every registered room is a non-empty Set object whose members are
    live sockets that captured this very room under this very name
    (rooms), and every live socket is a member of the room it captured,
    which is the one registered under its name (socks). *)
Record Inv (st : State) : Prop := {
  inv_rooms : ∀ n r, rooms st !! n = Some r →
    ∃ ms, sets st !! r = Some ms ∧ ms ≠ [] ∧
      ∀ c, c ∈ ms → ∃ sk, sockets st !! c = Some sk ∧
        readyState sk ≠ CLOSED ∧ roomName sk = n ∧ room sk = r;
  inv_socks : ∀ c sk, sockets st !! c = Some sk → readyState sk ≠ CLOSED →
    rooms st !! roomName sk = Some (room sk) ∧ c ∈ members_of st (room sk);
}.

(** The members a frame from [ws] is meant for: the others whose
    socket is open, in the room's iteration order. *)
Definition recipients (st : State) (ws : Conn) (members : list Conn) :=
  filter (λ client, client ≠ ws ∧ ready st client = OPEN) members.

(** Failures are isolated per recipient: whatever a send to one
    recipient [b] does short of writing the frame, every other
    recipient [c] is still sent the frame. *)
Definition sends_despite_failures (st : State) (ws : Conn) (m : Frame)
    (tx : Conn → SendOutcome) : Prop :=
  ∀ sk, sockets st !! ws = Some sk →
  ∀ b c, let rs := recipients st ws (members_of st (room sk)) in
    b ∈ rs → tx b ≠ Sent → c ∈ rs → c ≠ b →
    (c, m, tx c) ∈ drop (length (calls st))
                        (calls (dispatch st (Message ws m tx)).1).

Definition fails_at (b : Conn) : Conn → SendOutcome :=
  λ c, if decide (c = b) then Failed else Sent.

Definition x_room : jsstring := lit "x".

(** Three sockets accepted on the path [/x]: sockets 0, 1 and 2, all
    members of the Set object 0 registered under the name [x]. *)
Definition three_in_x : State :=
  run init [Connection (lit "/x"); Connection (lit "/x"); Connection (lit "/x")].

Definition hi : Frame := lit "hi".

Definition hello_world : jsstring := lit "Hello world".

(** A session after the color effect, the login of Ann and the
    editor effect: view and provider 0 are there, the document is the
    empty one. *)
Definition session : Component :=
  editor_effect (login (lit "  Ann ") (color_effect (lit "#3730a3") initial)).

(** Typing: the transaction that makes [text] the only block. *)
Definition type_text (text : jsstring) : Transaction := λ _, [text].

(** Both guards of [handleSubmitChange] let the call through. *)
Definition accepted (st : Component) : Prop :=
  ∃ v, viewRef st = Some v ∧ hasContent st = true ∧
       trim (textContent (doc v)) ≠ [].

Definition change_numbered (n : Z) : Change :=
  {| id := toString n; user := lit "Ann"; color := lit "#3730a3";
     content := lit "text"; timestamp := n |}.

End vocabulary.

Section vocabulary_more.

Import Relay Editor.

Definition question_mark : N := 63.

(** The path of a request URL: what comes before its query string. *)
Fixpoint url_path (url : jsstring) : jsstring :=
  match url with
  | [] => []
  | c :: rest => if c =? question_mark then [] else c :: url_path rest
  end.

(** The room id is resolved from the path alone. *)
Definition resolves_from_path (url : jsstring) : Prop :=
  resolve_room url = resolve_room (url_path url).

(** The Set objects never hold a socket twice. *)
Definition sets_nodup (st : State) : Prop :=
  ∀ r ms, sets st !! r = Some ms → NoDup ms.

(** The calls made on socket [c]. *)
Definition calls_to (c : Conn) (cs : list SendCall) : list SendCall :=
  filter (λ x, x.1.1 = c) cs.

(** Every accepted socket was first sent the status frame; nothing was
    sent to a socket not accepted yet. *)
Definition status_first (st : State) : Prop :=
  ∀ c, match sockets st !! c with
       | Some _ => ∃ rest, calls_to c (calls st) = (c, status_frame, Sent) :: rest
       | None => calls_to c (calls st) = []
       end.

(** What every state of a session satisfies: no name, then no view and
    no change; the name is trimmed; the changes are at most ten, each
    with text that is not blank and under the session's name. *)
Record SessionInv (st : Component) : Prop := {
  si_anonymous : username st = [] → viewRef st = None ∧ changes st = [];
  si_name : trim (username st) = username st;
  si_count : (length (changes st) ≤ 10)%nat;
  si_changes : ∀ c, c ∈ changes st →
    trim (content c) ≠ [] ∧ user c = username st;
}.

End vocabulary_more.

(** * Properties *)

Import Relay.

Section trim_facts.

Lemma trimStart_decomp s : ∃ l, s = l ++ trimStart s ∧ blank l.
Proof.
  induction s as [|c s (l & Hs & Hl)]; simpl.
  - exists []. split; [done|]. by intros c Hc%not_elem_of_nil.
  - destruct (isWhiteSpace c) eqn:Hc.
    + exists (c :: l). split; [by rewrite Hs at 1|].
      intros c' [->|Hc']%elem_of_cons; auto.
    + exists []. split; [done|]. by intros c' Hc'%not_elem_of_nil.
Qed.

Lemma trimStart_head s c r : trimStart s = c :: r → isWhiteSpace c = false.
Proof.
  induction s as [|c' s IH]; simpl; [done|].
  destruct (isWhiteSpace c') eqn:Hc; [done|]. by intros [= <- _].
Qed.

Lemma trimStart_fixed c r : isWhiteSpace c = false → trimStart (c :: r) = c :: r.
Proof. intros Hc. simpl. by rewrite Hc. Qed.

Lemma trimStart_idem s : trimStart (trimStart s) = trimStart s.
Proof.
  destruct (trimStart s) as [|c r] eqn:Hs; [done|].
  apply trimStart_fixed. by eapply trimStart_head.
Qed.

Lemma trimStart_nil s : trimStart s = [] ↔ blank s.
Proof.
  induction s as [|c s IH]; simpl.
  - split; [|done]. by intros _ c Hc%not_elem_of_nil.
  - destruct (isWhiteSpace c) eqn:Hc.
    + rewrite IH. split.
      * intros Hs c' [->|Hc']%elem_of_cons; auto.
      * intros Hs c' Hc'. apply Hs. by right.
    + split; [done|]. intros Hs. specialize (Hs c (list_elem_of_here _ _)).
      congruence.
Qed.

Lemma trimStart_app_solid l c t :
  isWhiteSpace c = false → trimStart (l ++ c :: t) = trimStart l ++ c :: t.
Proof.
  intros Hc. induction l as [|c' l IH]; simpl; [by rewrite Hc|].
  by destruct (isWhiteSpace c').
Qed.

Lemma trimEnd_cons_solid c r :
  isWhiteSpace c = false → trimEnd (c :: r) = c :: trimEnd r.
Proof.
  intros Hc. unfold trimEnd. rewrite reverse_cons.
  rewrite trimStart_app_solid by done. by rewrite reverse_app.
Qed.

Lemma trimEnd_decomp s : ∃ r, s = trimEnd s ++ r ∧ blank r.
Proof.
  destruct (trimStart_decomp (reverse s)) as (l & Hs & Hl).
  exists (reverse l). split.
  - unfold trimEnd. rewrite <- reverse_app, <- Hs. by rewrite reverse_involutive.
  - intros c Hc. apply Hl. by apply elem_of_reverse.
Qed.

Lemma trimEnd_last s front c :
  trimEnd s = front ++ [c] → isWhiteSpace c = false.
Proof.
  unfold trimEnd. intros Hs.
  apply (f_equal reverse) in Hs.
  rewrite reverse_involutive, reverse_app in Hs. simpl in Hs.
  by eapply trimStart_head.
Qed.

Lemma trimEnd_idem s : trimEnd (trimEnd s) = trimEnd s.
Proof. unfold trimEnd. by rewrite reverse_involutive, trimStart_idem. Qed.

(** The shape of [trim s]: empty when [s] is blank, and otherwise the
    middle of [s] between a blank prefix and a blank suffix, starting
    and ending with a code unit that is not white space. *)
Lemma trim_spec s :
  (blank s ∧ trim s = []) ∨
  (∃ l c mid r, s = l ++ trim s ++ r ∧ blank l ∧ blank r ∧
     trim s = c :: mid ∧ isWhiteSpace c = false ∧
     isWhiteSpace (List.last (trim s) c) = false ∧
     trim (trim s) = trim s).
Proof.
  unfold trim. destruct (trimStart_decomp s) as (l & Hs & Hl).
  destruct (trimStart s) as [|c t] eqn:Ht.
  - left. split; [by apply trimStart_nil|done].
  - right. pose proof (trimStart_head _ _ _ Ht) as Hc.
    destruct (trimEnd_decomp (c :: t)) as (r & Hr & Hbr).
    exists l, c, (trimEnd t), r.
    rewrite trimEnd_cons_solid in * by done.
    split; [by rewrite <- Hr|]. do 4 (split; [done|]). split.
    + destruct (trimEnd t) as [|c' t'] eqn:Ht'; [done|].
      destruct (exists_last (l := c' :: t')) as (front & z & Hz); [done|].
      rewrite Hz, app_comm_cons, last_last.
      eapply (trimEnd_last t front). by rewrite Ht'.
    + rewrite trimStart_fixed by done.
      rewrite trimEnd_cons_solid by done. by rewrite trimEnd_idem.
Qed.

Lemma trim_blank s : trim s = [] ↔ blank s.
Proof.
  split.
  - intros Hs. destruct (trim_spec s) as [[? _]|(l & c & mid & r & _ & _ & _ & H & _)];
      [done|congruence].
  - intros Hs. destruct (trim_spec s) as [[_ ?]|(l & c & mid & r & Hd & _ & _ & H & Hc & _)];
      [done|].
    assert (c ∈ s) as Hin.
    { rewrite Hd, H. apply elem_of_app. right. apply elem_of_app. left. left. }
    apply Hs in Hin. congruence.
Qed.

End trim_facts.

Section relay_invariant.

Lemma Inv_init : Inv init.
Proof. split; simpl; intros *; by rewrite lookup_empty. Qed.

Lemma Inv_room_name st n r c sk :
  Inv st → rooms st !! n = Some r → sockets st !! c = Some sk →
  readyState sk ≠ CLOSED → room sk = r → roomName sk = n.
Proof.
  intros HI Hn Hc Hlive Hr.
  destruct (inv_socks _ HI _ _ Hc Hlive) as [_ Hin].
  destruct (inv_rooms _ HI _ _ Hn) as (ms & Hms & _ & Hall).
  unfold members_of in Hin. rewrite Hr, Hms in Hin. simpl in Hin.
  destruct (Hall _ Hin) as (sk' & Hc' & _ & Hname & _). congruence.
Qed.

Lemma set_add_elem ws c ms : c ∈ set_add ws ms ↔ c = ws ∨ c ∈ ms.
Proof.
  unfold set_add. case_decide as Hin.
  - split; [auto|]. by intros [->|?].
  - rewrite elem_of_app, list_elem_of_singleton. tauto.
Qed.

Lemma set_add_nonempty ws ms : set_add ws ms ≠ [].
Proof.
  intros He. assert (ws ∈ set_add ws ms) as Hin by (apply set_add_elem; auto).
  rewrite He in Hin. by apply not_elem_of_nil in Hin.
Qed.

Lemma set_delete_elem ws c ms : c ∈ set_delete ws ms ↔ c ≠ ws ∧ c ∈ ms.
Proof. unfold set_delete. by rewrite list_elem_of_filter. Qed.

Lemma Inv_connection st url :
  Inv st → Inv (on_connection st (fresh (dom (sockets st))) url).
Proof.
  intros HI. set (ws := fresh (dom (sockets st))).
  assert (sockets st !! ws = None) as Hws
    by (apply not_elem_of_dom, is_fresh).
  unfold on_connection. set (name := resolve_room url).
  destruct (rooms st !! name) as [r|] eqn:Hname.
  - destruct (inv_rooms _ HI _ _ Hname) as (ms & Hms & Hne & Hall).
    split; simpl.
    + intros n' r' Hn'. destruct (decide (r' = r)) as [->|Hr].
      * assert (n' = name) as ->.
        { destruct ms as [|c0 ms']; [done|].
          destruct (Hall c0) as (sk0 & Hc0 & Hl0 & Hn0 & Hr0); [left|].
          rewrite <- Hn0. symmetry. by eapply Inv_room_name. }
        rewrite lookup_alter_eq, Hms. simpl. eexists; split; [done|].
        split; [apply set_add_nonempty|]. intros c [->|Hc]%set_add_elem.
        -- rewrite lookup_insert_eq. eexists; split; [done|]. by simpl.
        -- destruct (Hall c Hc) as (sk & Hsk & Hl & Hn & Hr).
           rewrite lookup_insert_ne by congruence. eauto.
      * rewrite lookup_alter_ne by done.
        destruct (inv_rooms _ HI _ _ Hn') as (ms' & Hms' & Hne' & Hall').
        exists ms'. repeat split; try done. intros c Hc.
        destruct (Hall' c Hc) as (sk & Hsk & ?).
        rewrite lookup_insert_ne by congruence. eauto.
    + intros c sk. rewrite lookup_insert_Some.
      intros [[<- <-]|[Hne' Hc]] Hlive; simpl.
      * split; [done|]. unfold members_of; simpl.
        rewrite lookup_alter_eq, Hms. simpl. apply set_add_elem; auto.
      * destruct (inv_socks _ HI _ _ Hc Hlive) as [Hrm Hin]. split; [done|].
        unfold members_of in *; simpl.
        destruct (decide (room sk = r)) as [He|Hr].
        -- rewrite He in *. rewrite lookup_alter_eq. rewrite Hms in *.
           simpl in *. apply set_add_elem; auto.
        -- by rewrite lookup_alter_ne.
  - set (r := fresh (dom (sets st))).
    assert (sets st !! r = None) as Hr by (apply not_elem_of_dom, is_fresh).
    split; simpl.
    + intros n' r'. rewrite lookup_insert_Some.
      intros [[<- <-]|[Hne' Hn']].
      * rewrite lookup_alter_eq, lookup_insert_eq. simpl.
        exists [ws]. repeat split; try done.
        intros c ->%list_elem_of_singleton. rewrite lookup_insert_eq. eauto.
      * destruct (inv_rooms _ HI _ _ Hn') as (ms' & Hms' & Hne'' & Hall').
        assert (r ≠ r') by congruence.
        rewrite lookup_alter_ne, lookup_insert_ne by done.
        exists ms'. repeat split; try done. intros c Hc.
        destruct (Hall' c Hc) as (sk & Hsk & ?).
        rewrite lookup_insert_ne by congruence. eauto.
    + intros c sk. rewrite lookup_insert_Some.
      intros [[<- <-]|[Hne' Hc]] Hlive; simpl.
      * rewrite lookup_insert_eq. split; [done|]. unfold members_of; simpl.
        rewrite lookup_alter_eq, lookup_insert_eq. simpl. by left.
      * destruct (inv_socks _ HI _ _ Hc Hlive) as [Hrm Hin].
        destruct (inv_rooms _ HI _ _ Hrm) as (ms' & Hms' & _).
        assert (name ≠ roomName sk) by congruence.
        assert (r ≠ room sk) by congruence.
        rewrite lookup_insert_ne by done. split; [done|].
        unfold members_of in *; simpl.
        by rewrite lookup_alter_ne, lookup_insert_ne.
Qed.

Lemma on_message_frame st ws sk m tx :
  sets (on_message st ws sk m tx).1 = sets st ∧
  rooms (on_message st ws sk m tx).1 = rooms st ∧
  sockets (on_message st ws sk m tx).1 = sockets st.
Proof. unfold on_message. by destruct (forEach_send _ _ _ _ _). Qed.

Lemma Inv_message st ws sk m tx : Inv st → Inv (on_message st ws sk m tx).1.
Proof.
  intros [H1 H2].
  destruct (on_message_frame st ws sk m tx) as (Hs & Hr & Hk).
  split; unfold members_of; rewrite ?Hs, ?Hr, ?Hk; [apply H1 | apply H2].
Qed.

Lemma Inv_set_ready st ws rs :
  rs ≠ CLOSED → ready st ws ≠ CLOSED → Inv st → Inv (set_ready ws rs st).
Proof.
  intros Hrs Hws HI. split; simpl.
  - intros n r Hn.
    destruct (inv_rooms _ HI _ _ Hn) as (ms & Hms & Hne & Hall).
    exists ms. repeat split; try done. intros c Hc.
    destruct (Hall c Hc) as (sk & Hsk & Hl & Hnm & Hr).
    destruct (decide (c = ws)) as [->|Hcw].
    + rewrite lookup_alter_eq, Hsk. simpl. eauto.
    + rewrite lookup_alter_ne by done. eauto.
  - intros c sk Hc Hlive. unfold members_of; simpl.
    destruct (decide (c = ws)) as [->|Hcw].
    + rewrite lookup_alter_eq in Hc.
      destruct (sockets st !! ws) as [sk0|] eqn:Hsk0; [|done].
      simpl in Hc. injection Hc as <-. simpl.
      unfold ready in Hws. rewrite Hsk0 in Hws.
      by apply (inv_socks _ HI).
    + rewrite lookup_alter_ne in Hc by done. by apply (inv_socks _ HI).
Qed.

Lemma Inv_close st ws sk :
  sockets st !! ws = Some sk → readyState sk ≠ CLOSED →
  Inv st → Inv (on_close (set_ready ws CLOSED st) ws sk).
Proof.
  intros Hws Hlive HI.
  destruct (inv_socks _ HI _ _ Hws Hlive) as [Hrm Hin].
  destruct (inv_rooms _ HI _ _ Hrm) as (ms & Hms & Hne & Hall).
  unfold members_of in Hin. rewrite Hms in Hin. simpl in Hin.
  unfold on_close. simpl. rewrite lookup_alter_eq, Hms. simpl.
  assert (∀ n r, (if bool_decide (length (set_delete ws ms) = 0%nat)
                  then delete (roomName sk) (rooms st) else rooms st) !! n
                 = Some r →
          rooms st !! n = Some r ∧
          (r = room sk → n = roomName sk ∧ set_delete ws ms ≠ [])) as Hreg.
  { intros n r Hn. case_bool_decide as Hlen.
    - apply lookup_delete_Some in Hn as [Hnn Hn]. split; [done|].
      intros ->. destruct (Hall _ Hin) as (sk' & Hsk' & _ & Hnm & _).
      destruct (inv_rooms _ HI _ _ Hn) as (ms' & Hms' & _ & Hall').
      assert (ms' = ms) as -> by congruence.
      destruct (Hall' _ Hin) as (sk'' & Hsk'' & _ & Hnm' & _).
      congruence.
    - split; [done|]. intros ->. split.
      + destruct (inv_rooms _ HI _ _ Hn) as (ms' & Hms' & _ & Hall').
        assert (ms' = ms) as -> by congruence.
        destruct (Hall' _ Hin) as (sk'' & Hsk'' & _ & Hnm' & _).
        congruence.
      + intros He. by rewrite He in Hlen. }
  split; simpl.
  - intros n r Hn. destruct (Hreg _ _ Hn) as [Hn0 Hsame].
    destruct (inv_rooms _ HI _ _ Hn0) as (ms' & Hms' & Hne' & Hall').
    destruct (decide (r = room sk)) as [->|Hr].
    + destruct (Hsame eq_refl) as [-> Hne2].
      assert (ms' = ms) as -> by congruence.
      rewrite lookup_alter_eq, Hms. simpl. eexists; split; [done|].
      split; [done|]. intros c [Hcw Hc]%set_delete_elem.
      rewrite lookup_alter_ne by done. by apply Hall'.
    + rewrite lookup_alter_ne by done. exists ms'. repeat split; try done.
      intros c Hc. destruct (Hall' c Hc) as (sk' & Hsk' & Hl' & Hn' & Hr').
      assert (c ≠ ws) by (intros ->; congruence).
      rewrite lookup_alter_ne by done. eauto.
  - intros c sk' Hc Hl'.
    assert (c ≠ ws) as Hcw.
    { intros ->. rewrite lookup_alter_eq, Hws in Hc. simpl in Hc.
      injection Hc as <-. by simpl in Hl'. }
    rewrite lookup_alter_ne in Hc by done.
    destruct (inv_socks _ HI _ _ Hc Hl') as [Hrm' Hin'].
    unfold members_of in *. simpl.
    assert (room sk' = room sk → c ∈ set_delete ws ms) as Hstay.
    { intros He. rewrite He, Hms in Hin'. simpl in Hin'.
      by apply set_delete_elem. }
    split.
    + case_bool_decide as Hlen; [|done].
      rewrite lookup_delete_ne; [done|]. intros He.
      assert (room sk' = room sk) as Hr by congruence.
      specialize (Hstay Hr). apply length_zero_iff_nil in Hlen.
      rewrite Hlen in Hstay. by apply not_elem_of_nil in Hstay.
    + destruct (decide (room sk' = room sk)) as [He|Hr].
      * rewrite He, lookup_alter_eq, Hms. simpl. by apply Hstay.
      * by rewrite lookup_alter_ne.
Qed.

Lemma Inv_dispatch st ev : Inv st → Inv (dispatch st ev).1.
Proof.
  intros HI. destruct ev as [url|ws m tx|ws|ws|ws]; simpl; try done.
  - by apply Inv_connection.
  - destruct (sockets st !! ws) as [sk|]; [|done].
    case_decide; [done|]. by apply Inv_message.
  - case_decide as Ho; [|done]. apply Inv_set_ready; [done| |done].
    by rewrite Ho.
  - destruct (sockets st !! ws) as [sk|] eqn:Hws; [|done].
    case_decide; [done|]. simpl. by apply Inv_close.
Qed.

Lemma Inv_run evs : ∀ st, Inv st → Inv (run st evs).
Proof.
  induction evs as [|ev evs IH]; intros st HI; [done|].
  apply IH. by apply Inv_dispatch.
Qed.

End relay_invariant.

Section split_facts.

Lemma split_cons_inv sep s : ∃ seg segs, split sep s = seg :: segs.
Proof.
  destruct s as [|c r]; simpl; [by eauto|].
  destruct (c =? sep); [by eauto|]. destruct (split sep r); eauto.
Qed.

Lemma split_segment sep seg rest :
  sep ∉ seg →
  split sep (seg ++ sep :: rest) = seg :: split sep rest.
Proof.
  induction seg as [|c seg IH]; intros Hseg; simpl.
  - by rewrite N.eqb_refl.
  - apply not_elem_of_cons in Hseg as [Hc Hseg].
    destruct (N.eqb_spec c sep) as [->|_]; [done|]. by rewrite IH.
Qed.

Lemma split_last_segment sep seg : sep ∉ seg → split sep seg = [seg].
Proof.
  induction seg as [|c seg IH]; intros Hseg; simpl; [done|].
  apply not_elem_of_cons in Hseg as [Hc Hseg].
  destruct (N.eqb_spec c sep) as [->|_]; [done|]. by rewrite IH.
Qed.

End split_facts.

Section fan_out.

Lemma forEach_send_returns st tx ws m members :
  (∀ b, b ∈ recipients st ws members → tx b ≠ Throws) →
  forEach_send st tx ws m members =
    ((λ b, (b, m, tx b)) <$> recipients st ws members, Returned).
Proof.
  unfold recipients.
  induction members as [|c ms IH]; intros Hok; simpl; [done|].
  rewrite filter_cons in *. case_bool_decide as Hc.
  - rewrite decide_True in * by done.
    rewrite IH by (intros b Hb; apply Hok; by right).
    specialize (Hok c (list_elem_of_here _ _)).
    rewrite fmap_cons. by destruct (tx c).
  - rewrite decide_False in * by done. by apply IH.
Qed.

Lemma forEach_send_raises st tx ws m members pre b post :
  recipients st ws members = pre ++ b :: post →
  (∀ c, c ∈ pre → tx c ≠ Throws) → tx b = Throws →
  forEach_send st tx ws m members =
    (((λ c, (c, m, tx c)) <$> pre) ++ [(b, m, Throws)], Raised).
Proof.
  unfold recipients. revert pre.
  induction members as [|c ms IH]; intros pre Hsplit Hpre Hb; simpl.
  - by destruct pre.
  - rewrite filter_cons in Hsplit. case_bool_decide as Hc.
    + rewrite decide_True in Hsplit by done.
      destruct pre as [|c' pre']; simplify_eq/=.
      * by rewrite Hb.
      * rewrite (IH pre') by (try done; intros; apply Hpre; by right).
        specialize (Hpre c' (list_elem_of_here _ _)).
        by destruct (tx c').
    + rewrite decide_False in Hsplit by done. by apply IH.
Qed.

End fan_out.

Section relay_claims.

Lemma url_path_no_query url : question_mark ∉ url → url_path url = url.
Proof.
  induction url as [|c url IH]; [done|]. intros [Hc Hu]%not_elem_of_cons.
  simpl. destruct (N.eqb_spec c question_mark) as [->|_]; [done|].
  by rewrite IH.
Qed.

(** C6, counterexample: the URL [/?room=1] has the path [/], and the
    room id computed for it is [?room=1], not the default room id. *)
Lemma query_string_is_part_of_room_id :
  url_path (lit "/?room=1") = lit "/" ∧
  resolve_room (lit "/?room=1") = lit "?room=1" ∧
  resolve_room (lit "/?room=1") ≠ default_room ∧
  ¬ resolves_from_path (lit "/?room=1").
Proof. repeat split; by vm_compute. Qed.

(** C6, amended: the room id is the text of the request URL between
    its leading slash and the next slash or the end, query string
    included; the default room id when that text is empty or when the
    URL has no slash at all; the new connection joins the room of that
    id; the URL [/] gives the default room. A URL without a query
    string is its own path, so that there the text is the first
    segment of the path. *)
Theorem room_id_is_first_path_segment (evs : list Event) (seg rest : jsstring) :
  slash ∉ seg → (rest = [] ∨ ∃ rest', rest = slash :: rest') →
  let st := run init evs in
  let url := slash :: seg ++ rest in
  let name := if truthy seg then seg else default_room in
  let ws := fresh (dom (sockets st)) in
  let st' := (dispatch st (Connection url)).1 in
  resolve_room url = name ∧
  resolve_room (lit "/") = default_room ∧
  (∀ path, slash ∉ path → resolve_room path = default_room) ∧
  (question_mark ∉ url → url_path url = url ∧ resolves_from_path url) ∧
  ∃ r, rooms st' !! name = Some r ∧ ws ∈ members_of st' r ∧
       sockets st' !! ws = Some {| readyState := OPEN; roomName := name;
                                   room := r |}.
Proof.
  intros Hseg Hrest st url name ws st'.
  assert (resolve_room url = name) as Hname.
  { unfold resolve_room, url.
    change (slash :: seg ++ rest) with ([] ++ slash :: seg ++ rest).
    rewrite split_segment by apply not_elem_of_nil.
    destruct Hrest as [->|[rest' ->]].
    - rewrite app_nil_r, split_last_segment by done. done.
    - rewrite split_segment by done. done. }
  split; [done|]. split; [done|]. split.
  { intros path Hpath. unfold resolve_room.
    by rewrite split_last_segment. }
  split.
  { intros Hq. unfold resolves_from_path. by rewrite url_path_no_query. }
  assert (Inv st') as HI by (apply Inv_dispatch, Inv_run, Inv_init).
  assert (sockets st' !! ws = Some {| readyState := OPEN;
            roomName := name; room := room (default
              {| readyState := OPEN; roomName := name; room := 0%nat |}
              (sockets st' !! ws)) |}) as Hws.
  { unfold st'. simpl. fold st. fold ws. unfold on_connection.
    rewrite Hname. destruct (rooms st !! name); simpl;
      by rewrite lookup_insert_eq. }
  destruct (inv_socks _ HI _ _ Hws) as [Hr Hin]; [done|]. simpl in *.
  eexists. split; [exact Hr|]. split; [exact Hin|]. exact Hws.
Qed.

Lemma room_id_is_first_path_segment_witness :
  resolve_room (lit "/x/y") = x_room ∧
  rooms (run init [Connection (lit "/x/y")]) !! x_room = Some 0%nat.
Proof.
  destruct (room_id_is_first_path_segment [] x_room (lit "/y")) as
    (H1 & _ & _ & _ & r & H2 & _ & _).
  - vm_compute. intros H. repeat (apply elem_of_cons in H as [H|H]; [done|]).
    by apply not_elem_of_nil in H.
  - right. by eexists.
  - split; [exact H1|]. reflexivity.
Defined.

(** C1: a frame received from a member [a] of a registered room goes,
    as it is, to every other member whose socket is open, and to
    nobody else; in particular never back to [a]. The sends are taken
    to return. *)
Theorem frame_forwarded_to_other_open_members
    (evs : list Event) (n : jsstring) (r : Ref) (a : Conn) (m : Frame)
    (tx : Conn → SendOutcome) :
  let st := run init evs in
  rooms st !! n = Some r → a ∈ members_of st r →
  (∀ b, b ∈ recipients st a (members_of st r) → tx b ≠ Throws) →
  let out := dispatch st (Message a m tx) in
  ∃ cs, calls out.1 = calls st ++ cs ∧ out.2 = Returned ∧
    (∀ b, b ∈ members_of st r → b ≠ a → ready st b = OPEN →
          (b, m, tx b) ∈ cs) ∧
    (∀ b g o, (b, g, o) ∈ cs →
          g = m ∧ b ≠ a ∧ b ∈ members_of st r ∧ ready st b = OPEN).
Proof.
  intros st Hn Ha Hok out.
  assert (Inv st) as HI by apply Inv_run, Inv_init.
  destruct (inv_rooms _ HI _ _ Hn) as (ms & Hms & _ & Hall).
  assert (members_of st r = ms) as Hmem by (unfold members_of; by rewrite Hms).
  rewrite Hmem in *.
  destruct (Hall a Ha) as (sk & Hsk & Hlive & _ & Hr).
  unfold out. simpl. rewrite Hsk. rewrite decide_False by done.
  unfold on_message. rewrite Hr, Hmem, forEach_send_returns by done. simpl.
  eexists. split; [done|]. split; [done|]. split.
  - intros b Hb Hba Hopen. apply list_elem_of_fmap. exists b. split; [done|].
    apply list_elem_of_filter. done.
  - intros b g o (b' & [= -> -> ->] & Hb')%list_elem_of_fmap.
    apply list_elem_of_filter in Hb' as [[? ?] ?]. done.
Qed.

Lemma frame_forwarded_to_other_open_members_witness :
  ∃ cs, calls (dispatch three_in_x (Message 0%nat hi (λ _, Sent))).1
        = calls three_in_x ++ cs ∧
        (1%nat, hi, Sent) ∈ cs ∧ (2%nat, hi, Sent) ∈ cs ∧
        ∀ g o, (0%nat, g, o) ∉ cs.
Proof.
  destruct (frame_forwarded_to_other_open_members
              [Connection (lit "/x"); Connection (lit "/x"); Connection (lit "/x")]
              x_room 0%nat 0%nat hi (λ _, Sent))
    as (cs & Hcs & _ & Hall & Honly).
  - reflexivity.
  - vm_compute. left.
  - done.
  - exists cs. split; [exact Hcs|]. split; [|split].
    + apply (Hall 1%nat); [vm_compute; right; left | lia | reflexivity].
    + apply (Hall 2%nat); [vm_compute; do 2 right; left | lia | reflexivity].
    + intros g o Hin. by destruct (Honly _ _ _ Hin) as (_ & Hne & _).
Defined.

(** C2: no registered room is empty, whatever the events were; when
    the only member of a room closes, the room leaves the registry, and
    the next connection with that room id gets a Set object that did
    not exist before, holding that connection alone. *)
Theorem empty_rooms_never_persist (evs : list Event) :
  let st := run init evs in
  (∀ n r, rooms st !! n = Some r → members_of st r ≠ []) ∧
  (∀ n r ws url,
     rooms st !! n = Some r → members_of st r = [ws] → resolve_room url = n →
     let st1 := (dispatch st (Close ws)).1 in
     let st2 := (dispatch st1 (Connection url)).1 in
     rooms st1 !! n = None ∧
     ∃ r', rooms st2 !! n = Some r' ∧ sets st1 !! r' = None ∧
           members_of st2 r' = [fresh (dom (sockets st1))]).
Proof.
  intros st. assert (Inv st) as HI by apply Inv_run, Inv_init. split.
  - intros n r Hn. destruct (inv_rooms _ HI _ _ Hn) as (ms & Hms & Hne & _).
    unfold members_of. by rewrite Hms.
  - intros n r ws url Hn Hone Hurl st1 st2.
    destruct (inv_rooms _ HI _ _ Hn) as (ms & Hms & _ & Hall).
    unfold members_of in Hone. rewrite Hms in Hone. simpl in Hone. subst ms.
    destruct (Hall ws) as (sk & Hsk & Hlive & Hname & Hroom); [left|].
    assert (rooms st1 !! n = None) as Hgone.
    { unfold st1. simpl. rewrite Hsk, decide_False by done. simpl.
      rewrite Hroom, Hname, lookup_alter_eq, Hms. simpl.
      unfold set_delete. rewrite filter_cons, decide_False by naive_solver.
      rewrite filter_nil. simpl. apply lookup_delete_eq. }
    split; [done|]. unfold st2. simpl. unfold on_connection.
    rewrite Hurl, Hgone. simpl.
    exists (fresh (dom (sets st1))). rewrite lookup_insert_eq.
    split; [done|]. split; [apply not_elem_of_dom, is_fresh|].
    unfold members_of; simpl. by rewrite lookup_alter_eq, lookup_insert_eq.
Qed.

Lemma empty_rooms_never_persist_witness :
  let st1 := (dispatch (run init [Connection (lit "/x")]) (Close 0%nat)).1 in
  let st2 := (dispatch st1 (Connection (lit "/x/again"))).1 in
  rooms st1 !! x_room = None ∧
  ∃ r', rooms st2 !! x_room = Some r' ∧ sets st1 !! r' = None ∧
        members_of st2 r' = [fresh (dom (sockets st1))].
Proof.
  destruct (empty_rooms_never_persist [Connection (lit "/x")]) as [_ H].
  apply (H x_room 0%nat 0%nat (lit "/x/again")); reflexivity.
Defined.

(** C7: a send that fails on one recipient does not keep the frame
    from the others, and the sender stays connected: when the sends
    return, with whatever outcome, every recipient is sent the frame
    even if the send to another one failed; the handler returns; the
    registry, the member sets and all sockets, the sender's among
    them, are as before. *)
Theorem send_failure_is_isolated
    (st : State) (ws : Conn) (sk : Socket) (m : Frame)
    (tx : Conn → SendOutcome) :
  sockets st !! ws = Some sk → readyState sk ≠ CLOSED →
  (∀ b, b ∈ recipients st ws (members_of st (room sk)) → tx b ≠ Throws) →
  let out := dispatch st (Message ws m tx) in
  sends_despite_failures st ws m tx ∧
  out.2 = Returned ∧
  sets out.1 = sets st ∧ rooms out.1 = rooms st ∧
  sockets out.1 = sockets st ∧ ready out.1 ws = ready st ws.
Proof.
  intros Hsk Hlive Hok out.
  assert (out = ({| sets := sets st; rooms := rooms st;
                    sockets := sockets st;
                    calls := calls st ++
                      ((λ b, (b, m, tx b)) <$>
                       recipients st ws (members_of st (room sk))) |},
                 Returned)) as Hout.
  { unfold out. simpl. rewrite Hsk, decide_False by done.
    unfold on_message. by rewrite forEach_send_returns. }
  split.
  - intros sk' Hsk' b c rs Hb Hfail Hc Hcb.
    assert (sk' = sk) as -> by congruence.
    fold out. rewrite Hout. simpl. rewrite drop_app_length.
    apply list_elem_of_fmap. by exists c.
  - rewrite Hout. unfold ready. simpl. done.
Qed.

Lemma send_failure_is_isolated_witness :
  let out := dispatch three_in_x (Message 0%nat hi (fails_at 1%nat)) in
  fails_at 1%nat 1%nat = Failed ∧
  (2%nat, hi, Sent) ∈ drop (length (calls three_in_x)) (calls out.1) ∧
  out.2 = Returned ∧ ready out.1 0%nat = OPEN.
Proof.
  destruct (send_failure_is_isolated three_in_x 0%nat
              {| readyState := OPEN; roomName := x_room; room := 0%nat |}
              hi (fails_at 1%nat)) as (Hiso & Hret & _ & _ & _ & Hready).
  - reflexivity.
  - done.
  - intros b _. unfold fails_at. by case_decide.
  - split; [reflexivity|]. split; [|split; [exact Hret|by rewrite Hready]].
    apply (Hiso {| readyState := OPEN; roomName := x_room; room := 0%nat |}
             eq_refl 1%nat 2%nat).
    + vm_compute. left.
    + done.
    + vm_compute. right. left.
    + lia.
Defined.

End relay_claims.

Section login_claims.

Import Editor.

(** C10: [onLogin] is called exactly when the input has a code unit
    that is not white space, with the input stripped of its blank
    prefix and suffix; a blank input leaves the component as it was;
    the name the component gets is not empty and trimmed. *)
Theorem login_passes_trimmed_name (input : jsstring) (st : Component) :
  (is_Some (Login.handleSubmit input) ↔
     ∃ c, c ∈ input ∧ isWhiteSpace c = false) ∧
  (∀ name, Login.handleSubmit input = Some name →
     name = trim input ∧ name ≠ [] ∧
     (∃ l r, input = l ++ name ++ r ∧ blank l ∧ blank r) ∧
     (∃ c mid, name = c :: mid ∧ isWhiteSpace c = false ∧
               isWhiteSpace (List.last name c) = false) ∧
     trim name = name ∧
     username (login input st) = name) ∧
  (blank input → Login.handleSubmit input = None ∧ login input st = st).
Proof.
  unfold login, Login.handleSubmit.
  destruct (trim_spec input) as
    [[Hb Ht]|(l & c & mid & r & Hd & Hl & Hr & Ht & Hc & Hlast & Hidem)].
  - rewrite Ht. simpl. split; [|split; [done|done]].
    split; [by intros [? ?]|]. intros (c & Hin & Hc).
    apply Hb in Hin. congruence.
  - rewrite Ht in *. simpl. split; [|split].
    + split; [|by eauto]. intros _. exists c. split; [|done].
      rewrite Hd. apply elem_of_app. right. apply elem_of_app. left. left.
    + intros name [= <-]. repeat split; try done; eauto.
    + intros Hb. apply trim_blank in Hb. congruence.
Qed.

Lemma login_passes_trimmed_name_witness :
  Login.handleSubmit (lit "  Ann ") = Some (lit "Ann") ∧
  username (login (lit "  Ann ") initial) = lit "Ann" ∧
  login (lit "   ") initial = initial.
Proof.
  destruct (login_passes_trimmed_name (lit "  Ann ") initial) as (_ & H & _).
  destruct (H (lit "Ann") eq_refl) as (_ & _ & _ & _ & _ & Hname).
  destruct (login_passes_trimmed_name (lit "   ") initial) as (_ & _ & Hb).
  split; [reflexivity|]. split; [exact Hname|]. apply Hb.
  intros c Hc. vm_compute in Hc.
  repeat (apply elem_of_cons in Hc as [->|Hc]; [reflexivity|]).
  by apply not_elem_of_nil in Hc.
Defined.

End login_claims.

Section to_string.

Lemma lit_inj s1 s2 : lit s1 = lit s2 → s1 = s2.
Proof.
  unfold lit. intros H.
  assert (Inj (=) (=) N_of_ascii) as Hinj.
  { intros a b Hab. by rewrite <- (ascii_N_embedding a), Hab, ascii_N_embedding. }
  apply (inj (fmap N_of_ascii)) in H.
  by rewrite <- (string_of_list_ascii_of_string s1), H,
    string_of_list_ascii_of_string.
Qed.

Lemma to_int_not_nil z :
  Z.to_int z ≠ Decimal.Pos Decimal.Nil ∧ Z.to_int z ≠ Decimal.Neg Decimal.Nil.
Proof.
  pose proof (to_of (Z.to_int z)) as H. rewrite of_to in H.
  split; intros He; rewrite He in H; discriminate H.
Qed.

Lemma toString_inj z1 z2 : toString z1 = toString z2 → z1 = z2.
Proof.
  unfold toString. intros H%lit_inj.
  destruct (to_int_not_nil z1) as [Hp1 Hn1].
  destruct (to_int_not_nil z2) as [Hp2 Hn2].
  apply to_int_inj.
  pose proof (NilZero.isi _ Hp1 Hn1) as H1.
  pose proof (NilZero.isi _ Hp2 Hn2) as H2.
  rewrite H in H1. congruence.
Qed.

End to_string.

Section editor_claims.

Import Editor.

Lemma truthy_nonempty (s : jsstring) : truthy s = true ↔ s ≠ [].
Proof. by destruct s. Qed.

Lemma dispatch_sets_hasContent st v tr :
  viewRef st = Some v → currentView v = true →
  let st' := dispatchTransaction tr st in
  viewRef st' = Some {| doc := tr (doc v); currentView := true;
                        viewDestroyed := viewDestroyed v |} ∧
  hasContent st' = truthy (trim (textContent (tr (doc v)))) ∧
  wsProviderRef st' = wsProviderRef st ∧ changes st' = changes st ∧
  username st' = username st ∧ userColor st' = userColor st.
Proof.
  intros Hv Hcur. unfold dispatchTransaction. rewrite Hv, Hcur. simpl.
  repeat split; try done.
  destruct (textContent (tr (doc v))) as [|c s] eqn:Ht; [done|]. done.
Qed.

(** C3: submitting when a transaction has left [Hello world] as the
    text of an initialized view puts a change with that content first
    in the store, leaves a single empty block in the view and
    [hasContent] false, and sets the awareness field [lastChange]. *)
Theorem submit_hello_world
    (st0 : Component) (v : View) (p : Provider) (tr : Transaction)
    (now date : Z) :
  viewRef st0 = Some v → currentView v = true →
  wsProviderRef st0 = Some p →
  textContent (tr (doc v)) = hello_world →
  let st := dispatchTransaction tr st0 in
  let st' := handleSubmitChange now date false st in
  hasContent st = true ∧
  (∃ c, head (all st') = Some c ∧ content c = hello_world ∧
        id c = toString now ∧ timestamp c = date ∧
        user c = username st0 ∧ color c = userColor st0) ∧
  (∃ v', viewRef st' = Some v' ∧ doc v' = emptyDoc ∧
         textContent (doc v') = []) ∧
  hasContent st' = false ∧
  showConfirmation st' = true ∧
  (∃ p', wsProviderRef st' = Some p' ∧ pid p' = pid p ∧
         aw_lastChange p' =
           Some {| lc_id := toString now; lc_user := username st0;
                   lc_timestamp := date; lc_content := hello_world |}).
Proof.
  intros Hv Hcur Hp Htext st st'.
  destruct (dispatch_sets_hasContent st0 v tr Hv Hcur)
    as (Hv1 & Hhc & Hp1 & Hch & Hun & Huc).
  fold st in Hv1, Hhc, Hp1, Hch, Hun, Huc.
  rewrite Htext in Hhc. change (hasContent st = true) in Hhc.
  split; [done|].
  unfold st', handleSubmitChange. rewrite Hv1, Hhc. simpl.
  rewrite Htext. change (truthy (trim hello_world)) with true. simpl.
  unfold dispatchTransaction, announce, all. simpl. rewrite Hv1. simpl.
  rewrite Hp1, Hp, Hun, Huc. simpl.
  split; [eexists; split; [reflexivity|done]|].
  split; [eexists; split; [reflexivity|done]|].
  do 2 (split; [done|]). eexists; split; [reflexivity|done].
Qed.

Lemma submit_hello_world_witness :
  let st' := handleSubmitChange 1700000000000 1700000000001 false
               (dispatchTransaction (type_text hello_world) session) in
  (content <$> all st') = [hello_world] ∧
  (doc <$> viewRef st') = Some emptyDoc ∧
  hasContent st' = false.
Proof.
  destruct (submit_hello_world session
              {| doc := emptyDoc; currentView := true; viewDestroyed := false |}
              {| pid := 0; aw_user := Some (lit "Ann", lit "#3730a3");
                 aw_lastChange := None |}
              (type_text hello_world) 1700000000000 1700000000001)
    as (_ & _ & _ & Hhc & _); try reflexivity.
  split; [reflexivity|]. split; [reflexivity|]. exact Hhc.
Defined.

(** C5: with no view, or with a view whose text is blank, submitting
    changes nothing: the component after the call is the component
    before it, whether or not the framework would raise. *)
Theorem submit_blank_is_noop
    (st : Component) (now date : Z) (raises : bool) :
  (viewRef st = None ∨
   ∃ v, viewRef st = Some v ∧ blank (textContent (doc v))) →
  handleSubmitChange now date raises st = st.
Proof.
  intros [Hv|(v & Hv & Hblank)]; unfold handleSubmitChange; rewrite Hv;
    [done|].
  destruct (hasContent st); [|done]. simpl.
  apply trim_blank in Hblank. by rewrite Hblank.
Qed.

Lemma submit_blank_is_noop_witness :
  handleSubmitChange 5 6 true
    (dispatchTransaction (type_text (lit "   ")) session)
  = dispatchTransaction (type_text (lit "   ")) session ∧
  handleSubmitChange 5 6 false initial = initial.
Proof.
  split.
  - apply submit_blank_is_noop. right. eexists. split; [reflexivity|].
    intros c Hc. vm_compute in Hc.
    repeat (apply elem_of_cons in Hc as [->|Hc]; [reflexivity|]).
    by apply not_elem_of_nil in Hc.
  - apply submit_blank_is_noop. by left.
Defined.

Lemma record_cons c s : record c s = c :: take 9 s.
Proof. done. Qed.

Lemma record_all cs :
  foldl (λ s c, record c s) [] cs = take 10 (reverse cs).
Proof.
  induction cs as [|c cs IH] using rev_ind; [done|].
  rewrite foldl_app, reverse_app. simpl. rewrite IH, !record_cons.
  by rewrite take_take.
Qed.

(** C4: recording puts the change first and keeps at most ten
    entries; the store holds the ten newest changes, newest first; after
    the changes with ids 1 to 11, these are 11 down to 2. *)
Theorem store_keeps_ten_newest_first (c : Change) (st : Component)
    (cs : list Change) :
  all (setChanges (record c) st) = c :: take 9 (all st) ∧
  (length (all (setChanges (record c) st)) ≤ 10)%nat ∧
  all (foldl (λ s c, setChanges (record c) s) initial cs)
    = take 10 (reverse cs) ∧
  id <$> all (foldl (λ s c, setChanges (record c) s) initial
                (change_numbered <$> [1; 2; 3; 4; 5; 6; 7; 8; 9; 10; 11]%Z))
    = toString <$> [11; 10; 9; 8; 7; 6; 5; 4; 3; 2]%Z.
Proof.
  split; [done|]. split.
  - unfold all. simpl. rewrite length_take. lia.
  - split; [|reflexivity]. unfold all.
    assert (∀ s, changes (foldl (λ s c, setChanges (record c) s) s cs)
                 = foldl (λ s c, record c s) (changes s) cs) as H.
    { induction cs as [|c' cs' IH]; intros s; [done|]. simpl. by rewrite IH. }
    rewrite H. apply record_all.
Qed.

(** C8, counterexample: two submits of one session that read the
    same value of the clock record two changes with the same id. *)
Lemma same_clock_reading_same_id :
  let st1 := handleSubmitChange 1700000000000 1700000000000 false
               (dispatchTransaction (type_text (lit "a")) session) in
  let st2 := handleSubmitChange 1700000000000 1700000000000 false
               (dispatchTransaction (type_text (lit "b")) st1) in
  content <$> all st2 = [lit "b"; lit "a"] ∧
  ¬ NoDup (id <$> all st2).
Proof.
  split; [reflexivity|]. vm_compute.
  intros H. apply NoDup_cons in H as [H _]. apply H. left.
Qed.

(** C8, amended: an accepted submit records a change whose id is the
    decimal form of the clock value read and whose timestamp is the
    date read; the ids of two such changes differ exactly when the two
    clock values differ. *)
Theorem submit_ids_differ_iff_clock_differs
    (st1 st2 : Component) (now1 date1 now2 date2 : Z) (raises1 raises2 : bool) :
  accepted st1 → accepted st2 →
  ∃ c1 c2,
    head (all (handleSubmitChange now1 date1 raises1 st1)) = Some c1 ∧
    head (all (handleSubmitChange now2 date2 raises2 st2)) = Some c2 ∧
    id c1 = toString now1 ∧ timestamp c1 = date1 ∧
    id c2 = toString now2 ∧ timestamp c2 = date2 ∧
    (id c1 ≠ id c2 ↔ now1 ≠ now2).
Proof.
  assert (∀ st now date raises, accepted st →
            ∃ c, head (all (handleSubmitChange now date raises st)) = Some c ∧
                 id c = toString now ∧ timestamp c = date) as Hone.
  { intros st now date raises (v & Hv & Hhc & Ht).
    unfold handleSubmitChange. rewrite Hv, Hhc. simpl.
    apply truthy_nonempty in Ht. rewrite Ht. simpl.
    destruct raises; simpl.
    - eexists. split; [reflexivity|]. done.
    - unfold dispatchTransaction, announce, all. simpl. rewrite Hv.
      destruct (currentView v); simpl;
        destruct (wsProviderRef st); simpl; eexists; (split; [reflexivity|done]). }
  intros H1 H2.
  destruct (Hone st1 now1 date1 raises1 H1) as (c1 & Hc1 & Hid1 & Hts1).
  destruct (Hone st2 now2 date2 raises2 H2) as (c2 & Hc2 & Hid2 & Hts2).
  exists c1, c2. repeat (split; [done|]). rewrite Hid1, Hid2. split.
  - intros Hne ->. by apply Hne.
  - intros Hne He. by apply Hne, toString_inj.
Qed.

Lemma submit_ids_differ_iff_clock_differs_witness :
  let typed := dispatchTransaction (type_text (lit "a")) session in
  ∃ c1 c2,
    head (all (handleSubmitChange 41 41 false typed)) = Some c1 ∧
    head (all (handleSubmitChange 42 42 false typed)) = Some c2 ∧
    id c1 ≠ id c2.
Proof.
  intros typed.
  assert (accepted typed) as Hacc.
  { eexists. split; [reflexivity|]. split; [reflexivity|]. by vm_compute. }
  destruct (submit_ids_differ_iff_clock_differs typed typed 41 41 42 42
              false false Hacc Hacc)
    as (c1 & c2 & H1 & H2 & _ & _ & _ & _ & Hiff).
  exists c1, c2. split; [exact H1|]. split; [exact H2|].
  apply Hiff. lia.
Defined.

(** The cleanup of the editor effect guards its release and forgets
    the provider: a second run finds nothing to release. *)
Lemma editor_cleanup_idempotent st :
  editor_cleanup (editor_cleanup st) = editor_cleanup st.
Proof.
  unfold editor_cleanup.
  destruct (viewRef st) as [v|] eqn:Hv; [destruct (currentView v) eqn:Hc|];
    simpl; rewrite ?Hv, ?Hc; destruct (wsProviderRef st) eqn:Hp; simpl;
    rewrite ?Hv, ?Hc, ?Hp; simpl; done.
Qed.

(** C9, the code at the failing input: unmounting a session runs the
    cleanup of the status effect, which releases the provider and keeps
    the reference, and then the cleanup of the editor effect, which
    releases the same provider again; so does a second run of the
    status cleanup. *)
Theorem teardown_releases_provider_twice :
  (pid <$> wsProviderRef session) = Some 0%nat ∧
  destroyLog (unmount session) = [0; 0]%nat ∧
  destroyLog (status_cleanup (status_cleanup session)) = [0; 0]%nat ∧
  destroyLog (editor_cleanup (editor_cleanup session)) = [0]%nat.
Proof. repeat split; reflexivity. Qed.

End editor_claims.

(** * Further properties *)

Section relay_more.

(** What [forEach_send] calls, whatever the sends do. *)
Lemma forEach_send_only st tx ws m members b g o :
  (b, g, o) ∈ (forEach_send st tx ws m members).1 →
  g = m ∧ o = tx b ∧ b ∈ members ∧ b ≠ ws ∧ ready st b = OPEN.
Proof.
  induction members as [|c ms IH]; simpl; [by intros ?%not_elem_of_nil|].
  case_bool_decide as Hc.
  - destruct (tx c) eqn:Htx.
    + destruct (forEach_send st tx ws m ms) as [cs k]. simpl in *.
      intros [[= -> -> ->]|Hin]%elem_of_cons.
      * destruct Hc. repeat split; try done. left.
      * destruct (IH Hin) as (? & ? & ? & ? & ?). repeat split; try done.
        by right.
    + destruct (forEach_send st tx ws m ms) as [cs k]. simpl in *.
      intros [[= -> -> ->]|Hin]%elem_of_cons.
      * destruct Hc. repeat split; try done. left.
      * destruct (IH Hin) as (? & ? & ? & ? & ?). repeat split; try done.
        by right.
    + simpl. intros [= -> -> ->]%list_elem_of_singleton.
      destruct Hc. repeat split; try done. left.
  - intros Hin. destruct (IH Hin) as (? & ? & ? & ? & ?).
    repeat split; try done. by right.
Qed.

Lemma dispatch_calls st ev :
  ∃ cs, calls (dispatch st ev).1 = calls st ++ cs.
Proof.
  destruct ev as [url|ws m tx|ws|ws|ws]; simpl.
  - unfold on_connection. destruct (rooms st !! _); simpl; eauto.
  - destruct (sockets st !! ws) as [sk|]; [|exists []; by rewrite app_nil_r].
    case_decide; [exists []; by rewrite app_nil_r|].
    unfold on_message. destruct (forEach_send _ _ _ _ _). simpl. eauto.
  - exists []. rewrite app_nil_r. by case_decide.
  - exists []. rewrite app_nil_r.
    destruct (sockets st !! ws) as [sk|]; [|done]. by case_decide.
  - exists []. by rewrite app_nil_r.
Qed.

Lemma run_calls evs : ∀ st, ∃ cs, calls (run st evs) = calls st ++ cs.
Proof.
  induction evs as [|ev evs IH]; intros st; simpl.
  - exists []. by rewrite app_nil_r.
  - destruct (IH (dispatch st ev).1) as (cs2 & H2).
    destruct (dispatch_calls st ev) as (cs1 & H1).
    exists (cs1 ++ cs2). unfold run in *. by rewrite H2, H1, app_assoc.
Qed.

Lemma set_add_nodup ws ms : NoDup ms → NoDup (set_add ws ms).
Proof.
  intros Hms. unfold set_add. case_decide as Hin; [done|].
  apply NoDup_app. split; [done|]. split; [|apply NoDup_singleton].
  by intros x Hx ->%list_elem_of_singleton.
Qed.

Lemma sets_nodup_dispatch st ev : sets_nodup st → sets_nodup (dispatch st ev).1.
Proof.
  intros Hnd. destruct ev as [url|ws m tx|ws|ws|ws]; simpl; try done.
  - unfold on_connection. destruct (rooms st !! _) as [r|]; simpl.
    + intros r' ms'; simpl. rewrite lookup_alter_Some.
      intros [(-> & ms & Hms & ->)|[_ Hms]]; [|by eapply Hnd].
      apply set_add_nodup. by eapply Hnd.
    + intros r' ms'; simpl. rewrite lookup_alter_Some.
      intros [(-> & ms & Hms & ->)|[Hne Hms]].
      * rewrite lookup_insert_eq in Hms. injection Hms as <-.
        apply set_add_nodup, NoDup_nil_2.
      * rewrite lookup_insert_ne in Hms by done. by eapply Hnd.
  - destruct (sockets st !! ws) as [sk|]; [|done]. case_decide; [done|].
    intros r ms. destruct (on_message_frame st ws sk m tx) as (-> & _ & _).
    apply Hnd.
  - by case_decide.
  - destruct (sockets st !! ws) as [sk|]; [|done]. case_decide; [done|].
    simpl. intros r' ms'; simpl. rewrite lookup_alter_Some.
    intros [(_ & ms & Hms & ->)|[_ Hms]]; [|by eapply Hnd].
    apply NoDup_filter. by eapply Hnd.
Qed.

Lemma sets_nodup_run evs : ∀ st, sets_nodup st → sets_nodup (run st evs).
Proof.
  induction evs as [|ev evs IH]; intros st H; [done|].
  apply IH. by apply sets_nodup_dispatch.
Qed.


(** X1: a frame never leaves the room of its sender: whatever the
    sends do, every call the message handler makes carries the frame
    received and goes to an open socket, other than the sender, that
    was accepted under the sender's room name and holds the sender's
    Set object. *)
Theorem frames_stay_in_room
    (evs : list Event) (a : Conn) (m : Frame) (tx : Conn → SendOutcome)
    (b : Conn) (g : Frame) (o : SendOutcome) :
  let st := run init evs in
  (b, g, o) ∈ drop (length (calls st))
                   (calls (dispatch st (Message a m tx)).1) →
  g = m ∧ b ≠ a ∧ ready st b = OPEN ∧
  ∃ ska skb, sockets st !! a = Some ska ∧ sockets st !! b = Some skb ∧
             roomName skb = roomName ska ∧ room skb = room ska.
Proof.
  intros st. assert (Inv st) as HI by apply Inv_run, Inv_init.
  simpl. destruct (sockets st !! a) as [ska|] eqn:Ha;
    [|by rewrite drop_all; intros ?%not_elem_of_nil].
  case_decide as Hlive; [by rewrite drop_all; intros ?%not_elem_of_nil|].
  unfold on_message.
  destruct (forEach_send st tx a m (members_of st (room ska))) as [cs k] eqn:Hcs.
  simpl. rewrite drop_app_length. intros Hin.
  assert ((b, g, o) ∈ (forEach_send st tx a m (members_of st (room ska))).1)
    as Hin' by by rewrite Hcs.
  apply forEach_send_only in Hin' as (-> & _ & Hb & Hba & Hopen).
  do 3 (split; [done|]).
  destruct (inv_socks _ HI _ _ Ha Hlive) as [Hroom _].
  destruct (inv_rooms _ HI _ _ Hroom) as (ms & Hms & _ & Hall).
  unfold members_of in Hb. rewrite Hms in Hb. simpl in Hb.
  destruct (Hall b Hb) as (skb & Hskb & _ & Hn & Hr). eauto 10.
Qed.

Lemma frames_stay_in_room_witness :
  ∃ ska skb, sockets three_in_x !! 0%nat = Some ska ∧
             sockets three_in_x !! 2%nat = Some skb ∧
             roomName skb = roomName ska ∧ room skb = room ska.
Proof.
  destruct (frames_stay_in_room
              [Connection (lit "/x"); Connection (lit "/x"); Connection (lit "/x")]
              0%nat hi (λ _, Sent) 2%nat hi Sent) as (_ & _ & _ & H).
  - vm_compute. right. left.
  - exact H.
Defined.

(** X2: when the sends return, the calls of one fan-out are exactly
    one call per recipient: the recipients, in the order of the Set,
    none of them twice. *)
Theorem each_recipient_is_sent_once
    (evs : list Event) (n : jsstring) (r : Ref) (a : Conn) (m : Frame)
    (tx : Conn → SendOutcome) :
  let st := run init evs in
  rooms st !! n = Some r → a ∈ members_of st r →
  (∀ b, b ∈ recipients st a (members_of st r) → tx b ≠ Throws) →
  let cs := drop (length (calls st))
                 (calls (dispatch st (Message a m tx)).1) in
  cs = (λ b, (b, m, tx b)) <$> recipients st a (members_of st r) ∧
  NoDup (recipients st a (members_of st r)) ∧
  length cs = length (recipients st a (members_of st r)).
Proof.
  intros st Hn Ha Hok cs.
  assert (Inv st) as HI by apply Inv_run, Inv_init.
  assert (sets_nodup st) as Hnd by (by apply sets_nodup_run).
  destruct (inv_rooms _ HI _ _ Hn) as (ms & Hms & _ & Hall).
  assert (members_of st r = ms) as Hmem by (unfold members_of; by rewrite Hms).
  rewrite Hmem in *.
  destruct (Hall a Ha) as (sk & Hsk & Hlive & _ & Hr).
  assert (cs = (λ b, (b, m, tx b)) <$> recipients st a ms) as ->.
  { unfold cs. simpl. rewrite Hsk, decide_False by done.
    unfold on_message. rewrite Hr, Hmem, forEach_send_returns by done.
    simpl. by rewrite drop_app_length. }
  split; [done|]. split; [|by rewrite length_fmap].
  apply NoDup_filter. by eapply Hnd.
Qed.

Lemma each_recipient_is_sent_once_witness :
  drop (length (calls three_in_x))
       (calls (dispatch three_in_x (Message 1%nat hi (λ _, Sent))).1)
  = [(0%nat, hi, Sent); (2%nat, hi, Sent)].
Proof.
  destruct (each_recipient_is_sent_once
              [Connection (lit "/x"); Connection (lit "/x"); Connection (lit "/x")]
              x_room 0%nat 1%nat hi (λ _, Sent)) as (H & _ & _).
  - reflexivity.
  - vm_compute. right. left.
  - done.
  - exact H.
Defined.

Lemma closed_dispatch st c sk ev :
  sockets st !! c = Some sk → readyState sk = CLOSED →
  sockets (dispatch st ev).1 !! c = Some sk ∧
  ∀ g o, (c, g, o) ∉ drop (length (calls st)) (calls (dispatch st ev).1).
Proof.
  intros Hc Hclosed.
  assert (ready st c = CLOSED) as Hready by (unfold ready; by rewrite Hc).
  destruct ev as [url|ws m tx|ws|ws|ws]; simpl.
  - assert (fresh (dom (sockets st)) ≠ c) as Hne.
    { intros He. pose proof (is_fresh (dom (sockets st))) as Hf.
      rewrite He in Hf. apply Hf, elem_of_dom. eauto. }
    unfold on_connection. destruct (rooms st !! _); simpl;
      rewrite lookup_insert_ne, drop_app_length by done;
      (split; [done|]); intros g o [=]%list_elem_of_singleton; done.
  - destruct (sockets st !! ws) as [skw|] eqn:Hw;
      [|rewrite drop_all; split; [done|]; intros ??; apply not_elem_of_nil].
    case_decide;
      [rewrite drop_all; split; [done|]; intros ??; apply not_elem_of_nil|].
    destruct (on_message_frame st ws skw m tx) as (_ & _ & ->).
    split; [done|]. unfold on_message.
    destruct (forEach_send st tx ws m (members_of st (room skw)))
      as [cs k] eqn:Hcs. simpl. rewrite drop_app_length. intros g o Hin.
    assert ((c, g, o) ∈ (forEach_send st tx ws m (members_of st (room skw))).1)
      as Hin' by by rewrite Hcs.
    apply forEach_send_only in Hin' as (_ & _ & _ & _ & Hopen). congruence.
  - case_decide as Ho; simpl; rewrite drop_all;
      (split; [|intros ??; apply not_elem_of_nil]); [|done].
    rewrite lookup_alter_ne; [done|]. intros ->. congruence.
  - destruct (sockets st !! ws) as [skw|] eqn:Hw;
      [|rewrite drop_all; split; [done|]; intros ??; apply not_elem_of_nil].
    case_decide as Hcl;
      [rewrite drop_all; split; [done|]; intros ??; apply not_elem_of_nil|].
    simpl. rewrite drop_all. split; [|intros ??; apply not_elem_of_nil].
    rewrite lookup_alter_ne; [done|]. intros ->. congruence.
  - rewrite drop_all. split; [done|]. intros ??; apply not_elem_of_nil.
Qed.

(** X3: once a socket is closed, the relay never sends to it again,
    whatever happens afterwards. *)
Theorem closed_socket_is_never_sent_to
    (st : State) (c : Conn) (sk : Socket) (evs : list Event) :
  sockets st !! c = Some sk → readyState sk = CLOSED →
  ∀ g o, (c, g, o) ∉ drop (length (calls st)) (calls (run st evs)).
Proof.
  revert st. induction evs as [|ev evs IH]; intros st Hc Hclosed g o.
  - simpl. rewrite drop_all. apply not_elem_of_nil.
  - destruct (closed_dispatch st c sk ev Hc Hclosed) as [Hc1 Hnew].
    destruct (dispatch_calls st ev) as (cs1 & H1).
    destruct (run_calls evs (dispatch st ev).1) as (cs2 & H2).
    change (run st (ev :: evs)) with (run (dispatch st ev).1 evs).
    specialize (IH _ Hc1 Hclosed g o). specialize (Hnew g o).
    rewrite H2 in *. rewrite H1 in *.
    rewrite <- app_assoc, drop_app_length in *.
    rewrite app_assoc, drop_app_length in IH.
    rewrite elem_of_app. tauto.
Qed.

Lemma closed_socket_is_never_sent_to_witness :
  (2%nat, hi, Sent) ∉
    drop (length (calls (run three_in_x [Close 2%nat])))
         (calls (run (run three_in_x [Close 2%nat])
                   [Message 0%nat hi (λ _, Sent); Connection (lit "/x")])).
Proof.
  apply (closed_socket_is_never_sent_to (run three_in_x [Close 2%nat]) 2%nat
           {| readyState := CLOSED; roomName := x_room; room := 0%nat |});
    reflexivity.
Defined.

(** X4: membership and liveness go together in every state the relay
    reaches: the members of a registered room are sockets that are not
    closed and were accepted under that room's name; every socket that
    is not closed is a member of the room registered under its name;
    no socket is a member of two registered rooms. *)
Theorem members_are_the_live_sockets (evs : list Event) :
  let st := run init evs in
  (∀ n r c, rooms st !! n = Some r → c ∈ members_of st r →
     ∃ sk, sockets st !! c = Some sk ∧ readyState sk ≠ CLOSED ∧
           roomName sk = n ∧ room sk = r) ∧
  (∀ c sk, sockets st !! c = Some sk → readyState sk ≠ CLOSED →
     rooms st !! roomName sk = Some (room sk) ∧
     c ∈ members_of st (room sk)) ∧
  (∀ n n' r r' c, rooms st !! n = Some r → rooms st !! n' = Some r' →
     c ∈ members_of st r → c ∈ members_of st r' → n = n' ∧ r = r').
Proof.
  intros st. assert (Inv st) as HI by apply Inv_run, Inv_init.
  assert (∀ n r c, rooms st !! n = Some r → c ∈ members_of st r →
     ∃ sk, sockets st !! c = Some sk ∧ readyState sk ≠ CLOSED ∧
           roomName sk = n ∧ room sk = r) as H1.
  { intros n r c Hn Hc.
    destruct (inv_rooms _ HI _ _ Hn) as (ms & Hms & _ & Hall).
    unfold members_of in Hc. rewrite Hms in Hc. by apply Hall. }
  split; [done|]. split; [apply HI|].
  intros n n' r r' c Hn Hn' Hc Hc'.
  destruct (H1 _ _ _ Hn Hc) as (sk & Hsk & _ & <- & <-).
  destruct (H1 _ _ _ Hn' Hc') as (sk' & Hsk' & _ & <- & <-).
  by simplify_eq.
Qed.

Lemma calls_to_app c cs1 cs2 :
  calls_to c (cs1 ++ cs2) = calls_to c cs1 ++ calls_to c cs2.
Proof. apply filter_app. Qed.

Lemma calls_to_none c cs :
  (∀ g o, (c, g, o) ∉ cs) → calls_to c cs = [].
Proof.
  intros H. unfold calls_to. induction cs as [|[[b g] o] cs IH]; [done|].
  rewrite filter_cons. simpl. case_decide as Hb.
  - subst b. exfalso. apply (H g o). left.
  - apply IH. intros g' o' Hin. apply (H g' o'). by right.
Qed.

Lemma status_first_dispatch st ev :
  status_first st → status_first (dispatch st ev).1.
Proof.
  intros HJ c. specialize (HJ c).
  destruct ev as [url|ws m tx|ws|ws|ws]; simpl.
  - assert (sockets st !! fresh (dom (sockets st)) = None) as Hf
      by apply not_elem_of_dom, is_fresh.
    assert (sockets (on_connection st (fresh (dom (sockets st))) url)
            = <[fresh (dom (sockets st)) :=
                  {| readyState := OPEN; roomName := resolve_room url;
                     room := room (default
                       {| readyState := OPEN; roomName := []; room := 0%nat |}
                       (sockets (on_connection st (fresh (dom (sockets st))) url)
                          !! fresh (dom (sockets st)))) |}]> (sockets st) ∧
            calls (on_connection st (fresh (dom (sockets st))) url)
            = calls st ++ [(fresh (dom (sockets st)), status_frame, Sent)])
      as [-> ->].
    { unfold on_connection. destruct (rooms st !! _); simpl;
        by rewrite lookup_insert_eq. }
    rewrite calls_to_app. unfold calls_to at 2 4. rewrite filter_cons, filter_nil.
    simpl. destruct (decide (fresh (dom (sockets st)) = c)) as [<-|Hne].
    + rewrite lookup_insert_eq, Hf in *. rewrite HJ. simpl. eauto.
    + rewrite lookup_insert_ne by done. rewrite app_nil_r. exact HJ.
  - destruct (sockets st !! ws) as [skw|] eqn:Hw; [|done].
    case_decide; [done|].
    destruct (on_message_frame st ws skw m tx) as (_ & _ & ->).
    unfold on_message.
    destruct (forEach_send st tx ws m (members_of st (room skw)))
      as [cs k] eqn:Hcs. simpl. rewrite calls_to_app.
    destruct (sockets st !! c) as [skc|] eqn:Hc.
    + destruct HJ as (rest & ->). eauto.
    + rewrite HJ. simpl. apply calls_to_none. intros g o Hin.
      assert ((c, g, o) ∈ (forEach_send st tx ws m (members_of st (room skw))).1)
        as Hin' by by rewrite Hcs.
      apply forEach_send_only in Hin' as (_ & _ & _ & _ & Hopen).
      unfold ready in Hopen. by rewrite Hc in Hopen.
  - case_decide; [|done]. simpl. rewrite lookup_alter.
    case_decide; [|done]. subst. by destruct (sockets st !! c).
  - destruct (sockets st !! ws) as [skw|] eqn:Hw; [|done].
    case_decide; [done|]. simpl. rewrite lookup_alter.
    case_decide; [|done]. subst. by rewrite Hw in *.
  - done.
Qed.

(** X5: in every state the relay reaches, the first frame sent to an
    accepted socket is the status frame, and nothing has been sent to
    a socket that was not accepted. *)
Theorem status_frame_comes_first (evs : list Event) (c : Conn) :
  let st := run init evs in
  match sockets st !! c with
  | Some _ => ∃ rest, calls_to c (calls st) = (c, status_frame, Sent) :: rest
  | None => calls_to c (calls st) = []
  end.
Proof.
  intros st. revert c. change (status_first st). unfold st.
  assert (∀ s, status_first s → status_first (run s evs)) as H.
  { induction evs as [|ev evs' IH]; intros s Hs; [done|].
    apply IH. by apply status_first_dispatch. }
  apply H. intros c. simpl. by rewrite lookup_empty.
Qed.


Lemma set_delete_fresh ws ms : ws ∉ ms → set_delete ws (set_add ws ms) = ms.
Proof.
  intros Hws. unfold set_add, set_delete. rewrite decide_False by done.
  rewrite filter_app, filter_cons, decide_False, filter_nil, app_nil_r
    by naive_solver.
  induction ms as [|c ms IH]; [done|].
  apply not_elem_of_cons in Hws as [Hc Hms].
  rewrite filter_cons, decide_True by done. by rewrite IH.
Qed.

(** X6: joining and then leaving gives the registry back: after a
    connection is accepted and the same socket closes, the registered
    rooms are the ones registered before, each with its members as
    before. *)
Theorem join_then_leave_restores_registry (evs : list Event) (url : jsstring) :
  let st := run init evs in
  let ws := fresh (dom (sockets st)) in
  let st2 := run st [Connection url; Close ws] in
  rooms st2 = rooms st ∧
  ∀ n r, rooms st !! n = Some r → members_of st2 r = members_of st r.
Proof.
  intros st ws st2. assert (Inv st) as HI by apply Inv_run, Inv_init.
  assert (sockets st !! ws = None) as Hws by apply not_elem_of_dom, is_fresh.
  unfold st2. simpl. fold ws. unfold on_connection.
  set (name := resolve_room url).
  destruct (rooms st !! name) as [r|] eqn:Hname; simpl;
    rewrite lookup_insert_eq; simpl; rewrite lookup_alter_eq.
  - destruct (inv_rooms _ HI _ _ Hname) as (ms & Hms & Hne & Hall).
    assert (ws ∉ ms) as Hfresh.
    { intros Hin. destruct (Hall _ Hin) as (sk & Hsk & _). congruence. }
    rewrite lookup_alter_eq, Hms. simpl. rewrite set_delete_fresh by done.
    rewrite bool_decide_false by (by destruct ms). split; [done|].
    intros n r' Hn. unfold members_of. simpl.
    destruct (decide (r = r')) as [<-|Hr].
    + rewrite !lookup_alter_eq, Hms. simpl. by rewrite set_delete_fresh.
    + by rewrite !lookup_alter_ne.
  - set (r := fresh (dom (sets st))).
    assert (sets st !! r = None) as Hr by apply not_elem_of_dom, is_fresh.
    rewrite lookup_alter_eq, lookup_insert_eq. simpl.
    rewrite (set_delete_fresh ws []) by apply not_elem_of_nil.
    rewrite bool_decide_true by done.
    split; [by apply delete_insert_id|].
    intros n r' Hn. destruct (inv_rooms _ HI _ _ Hn) as (ms & Hms & _).
    assert (r ≠ r') by congruence. unfold members_of. simpl.
    by rewrite !lookup_alter_ne, lookup_insert_ne.
Qed.

Lemma split_segments_clean sep s seg : seg ∈ split sep s → sep ∉ seg.
Proof.
  revert seg. induction s as [|c s IH]; intros seg; simpl.
  - intros ->%list_elem_of_singleton. apply not_elem_of_nil.
  - destruct (N.eqb_spec c sep) as [->|Hc].
    + intros [->|Hin]%elem_of_cons; [apply not_elem_of_nil|by apply IH].
    + destruct (split sep s) as [|seg0 segs];
        [intros ->%list_elem_of_singleton;
         by intros ->%list_elem_of_singleton|].
      intros [->|Hin]%elem_of_cons.
      * apply not_elem_of_cons. split; [done|]. apply IH. left.
      * apply IH. by right.
Qed.

(** X7: whatever the request URL, the room id computed for it is not
    empty and holds no slash. *)
Theorem room_id_is_never_empty (url : jsstring) :
  resolve_room url ≠ [] ∧ slash ∉ resolve_room url.
Proof.
  assert (default_room ≠ [] ∧ slash ∉ default_room) as Hd.
  { split; [done|]. vm_compute. intros H.
    repeat (apply elem_of_cons in H as [H|H]; [done|]).
    by apply not_elem_of_nil in H. }
  unfold resolve_room.
  destruct (split slash url !! 1%nat) as [seg|] eqn:Hseg; [|done].
  destruct seg as [|c seg]; [done|]. simpl. split; [done|].
  eapply split_segments_clean, list_elem_of_lookup_2, Hseg.
Qed.

End relay_more.

Section hex.

Import Session.

Lemma hexDigit_range d :
  d < 16 → (48 ≤ hexDigit d ≤ 57) ∨ (97 ≤ hexDigit d ≤ 102).
Proof. unfold hexDigit. intros Hd. destruct (N.ltb_spec d 10); lia. Qed.

Lemma toString16_fuel_digits fuel n c :
  c ∈ toString16_fuel fuel n → (48 ≤ c ≤ 57) ∨ (97 ≤ c ≤ 102).
Proof.
  revert n. induction fuel as [|fuel IH]; intros n; simpl;
    [by intros ?%not_elem_of_nil|].
  intros [Hin| ->%list_elem_of_singleton]%elem_of_app.
  - destruct (n <? 16); [by apply not_elem_of_nil in Hin|by eapply IH].
  - apply hexDigit_range, N.mod_lt. lia.
Qed.

Lemma toString16_fuel_length fuel n (k : nat) :
  n < 16 ^ N.of_nat (S k) →
  (1 ≤ length (toString16_fuel (S fuel) n) ≤ S k)%nat.
Proof.
  revert n k. induction fuel as [|fuel IH]; intros n k Hn.
  - simpl. destruct (n <? 16); simpl; lia.
  - change (toString16_fuel (S (S fuel)) n)
      with ((if n <? 16 then [] else toString16_fuel (S fuel) (n / 16))
            ++ [hexDigit (n mod 16)]).
    rewrite length_app.
    destruct (N.ltb_spec n 16) as [Hlt|Hge]; [simpl length; lia|].
    destruct k as [|k].
    + change (16 ^ N.of_nat 1) with 16 in Hn. lia.
    + assert (n / 16 < 16 ^ N.of_nat (S k)) as Hdiv.
      { apply N.Div0.div_lt_upper_bound.
        rewrite <- N.pow_succ_r', <- Nat2N.inj_succ. exact Hn. }
      specialize (IH _ _ Hdiv).
      set (l := toString16_fuel (S fuel) (n / 16)) in *. simpl. lia.
Qed.

Lemma toString16_fuel_enough f1 : ∀ f2 n,
  n < 16 ^ N.of_nat (S f1) → n < 16 ^ N.of_nat (S f2) →
  toString16_fuel (S f1) n = toString16_fuel (S f2) n.
Proof.
  induction f1 as [|f1 IH]; intros f2 n H1 H2.
  - change (16 ^ N.of_nat 1) with 16 in H1.
    simpl. destruct (N.ltb_spec n 16); [done|lia].
  - change (toString16_fuel (S (S f1)) n)
      with ((if n <? 16 then [] else toString16_fuel (S f1) (n / 16))
            ++ [hexDigit (n mod 16)]).
    change (toString16_fuel (S f2) n)
      with ((if n <? 16 then [] else toString16_fuel f2 (n / 16))
            ++ [hexDigit (n mod 16)]).
    destruct (N.ltb_spec n 16) as [Hlt|Hge]; [done|]. f_equal.
    destruct f2 as [|f2].
    + change (16 ^ N.of_nat 1) with 16 in H2. lia.
    + apply IH; apply N.Div0.div_lt_upper_bound;
        by rewrite <- N.pow_succ_r', <- Nat2N.inj_succ.
Qed.

Lemma toString16_bound n : n < 16 ^ N.of_nat (S (N.to_nat (N.log2 n))).
Proof.
  rewrite Nat2N.inj_succ, N2Nat.id.
  destruct (N.eq_dec n 0) as [->|Hn]; [done|].
  apply N.lt_le_trans with (2 ^ N.succ (N.log2 n)).
  - apply N.log2_spec. lia.
  - apply N.pow_le_mono_l. lia.
Qed.

(** The fuel of [toString16] is enough: the digits are those of the
    division by 16. *)
Lemma toString16_eq n :
  toString16 n =
  (if n <? 16 then [] else toString16 (n / 16)) ++ [hexDigit (n mod 16)].
Proof.
  unfold toString16 at 1.
  change (toString16_fuel (S (N.to_nat (N.log2 n))) n)
    with ((if n <? 16 then []
           else toString16_fuel (N.to_nat (N.log2 n)) (n / 16))
          ++ [hexDigit (n mod 16)]).
  destruct (N.ltb_spec n 16) as [Hlt|Hge]; [done|]. f_equal.
  unfold toString16.
  destruct (N.to_nat (N.log2 n)) as [|f] eqn:Hf.
  - pose proof (toString16_bound n) as Hb. rewrite Hf in Hb.
    change (16 ^ N.of_nat 1) with 16 in Hb. lia.
  - apply toString16_fuel_enough; [|apply toString16_bound].
    apply N.Div0.div_lt_upper_bound.
    rewrite <- N.pow_succ_r', <- Nat2N.inj_succ, <- Hf.
    apply toString16_bound.
Qed.

(** X13: the color string made from a draw [n] below 16777215 is [#]
    followed by one to six lowercase hexadecimal digits, without
    padding: a draw below 16^5 gives fewer than six digits. The color
    is generated once: the effect leaves a color that is set. *)
Theorem generated_color_shape (n n' : N) (st : Editor.Component) :
  n < 16777215 →
  (∃ digits, generated_color n = 35 :: digits ∧
     (1 ≤ length digits ≤ 6)%nat ∧
     (∀ c, c ∈ digits → (48 ≤ c ≤ 57) ∨ (97 ≤ c ≤ 102)) ∧
     (n < 1048576 → (length digits < 6)%nat)) ∧
  Editor.color_effect (generated_color n')
    (Editor.color_effect (generated_color n) st)
  = Editor.color_effect (generated_color n) st.
Proof.
  intros Hn. split.
  - exists (toString16 n). split; [done|]. unfold toString16. split; [|split].
    + apply (toString16_fuel_length _ n 5).
      change (16 ^ N.of_nat 6) with 16777216. lia.
    + intros c. apply toString16_fuel_digits.
    + intros Hsmall.
      pose proof (toString16_fuel_length (N.to_nat (N.log2 n)) n 4) as H.
      change (16 ^ N.of_nat 5) with 1048576 in H. lia.
  - unfold Editor.color_effect.
    destruct (truthy (Editor.userColor st)) eqn:Hc; simpl; by rewrite ?Hc.
Qed.

Lemma generated_color_shape_witness :
  generated_color 255 = lit "#ff" ∧
  Editor.userColor
    (Editor.color_effect (generated_color 7)
       (Editor.color_effect (generated_color 255) Editor.initial))
  = lit "#ff".
Proof.
  destruct (generated_color_shape 255 7 Editor.initial) as [_ H]; [lia|].
  split; [reflexivity|]. rewrite H. reflexivity.
Defined.

End hex.

Section session_more.

Import Editor.

Lemma SessionInv_initial : SessionInv initial.
Proof.
  split; simpl; try done; [lia|]. by intros c ?%not_elem_of_nil.
Qed.

Lemma record_elem c c' s : c' ∈ record c s → c' = c ∨ c' ∈ s.
Proof.
  unfold record. intros Hin%subseteq_take.
  by apply elem_of_cons in Hin.
Qed.

Lemma record_length c s : (length (record c s) ≤ 10)%nat.
Proof. unfold record. rewrite length_take. lia. Qed.

Lemma submit_frame now date raises st :
  username (handleSubmitChange now date raises st) = username st ∧
  (is_Some (viewRef (handleSubmitChange now date raises st))
   ↔ is_Some (viewRef st)) ∧
  (changes (handleSubmitChange now date raises st) = changes st ∨
   ∃ v, viewRef st = Some v ∧ hasContent st = true ∧
        trim (textContent (doc v)) ≠ [] ∧
        changes (handleSubmitChange now date raises st)
        = record {| id := toString now; user := username st;
                    color := userColor st; content := textContent (doc v);
                    timestamp := date |} (changes st)).
Proof.
  unfold handleSubmitChange.
  destruct (viewRef st) as [v|] eqn:Hv; [|by rewrite Hv; auto].
  destruct (hasContent st) eqn:Hhc; simpl; [|by rewrite Hv; auto].
  destruct (truthy (trim (textContent (doc v)))) eqn:Ht; simpl;
    [|by rewrite Hv; auto].
  apply truthy_nonempty in Ht.
  destruct raises; simpl.
  - rewrite Hv. split; [done|]. split; [done|]. right. eauto.
  - unfold dispatchTransaction, announce. simpl. rewrite Hv.
    destruct (currentView v); simpl; destruct (wsProviderRef st); simpl;
      (split; [done|]); (split; [split; eauto|]); right; eauto.
Qed.

Lemma SessionInv_step st ev : SessionInv st → SessionInv (Session.step st ev).
Proof.
  intros HI. pose proof HI as [Hanon Hname Hcount Hch].
  destruct ev as [n|input| | | |tr|now date raises| |status|]; simpl.
  - unfold color_effect. destruct (truthy (userColor st)); first [exact HI|by split].
  - destruct (truthy (username st)) eqn:Hu; [first [exact HI|by split]|].
    assert (username st = []) as Hnil by (by destruct (username st)).
    destruct (Hanon Hnil) as [Hv Hc].
    unfold login, Login.handleSubmit.
    destruct (truthy (trim input)) eqn:Ht; [|first [exact HI|by split]].
    apply truthy_nonempty in Ht.
    split; simpl; rewrite ?Hc; try done.
    + destruct (trim_spec input) as [[_ ?]|(?&?&?&?&_&_&_&_&_&_&Hidem)];
        [done|exact Hidem].
    + simpl. lia.
    + by intros c ?%not_elem_of_nil.
  - unfold editor_effect. destruct (editorRef st); simpl; [|first [exact HI|by split]].
    destruct (truthy (username st)) eqn:Hu; simpl; [|first [exact HI|by split]].
    apply truthy_nonempty in Hu. first [exact HI|by split].
  - unfold editor_cleanup.
    destruct (viewRef st) as [v|] eqn:Hv; [destruct (currentView v)|];
      simpl; destruct (wsProviderRef st); simpl; split; simpl; try done;
      intros Hnil; destruct (Hanon Hnil); split; congruence.
  - unfold status_cleanup. destruct (wsProviderRef st); first [exact HI|by split].
  - unfold dispatchTransaction.
    destruct (viewRef st) as [v|] eqn:Hv; [|first [exact HI|by split]].
    destruct (currentView v); simpl; [|first [exact HI|by split]].
    split; simpl; try done. intros Hnil. destruct (Hanon Hnil). congruence.
  - destruct (submit_frame now date raises st) as (Hu & Hv & Hc).
    split; rewrite ?Hu.
    + intros Hnil. destruct (Hanon Hnil) as [Hv0 Hc0].
      destruct Hc as [Hc|(v & Hv' & _)]; [|congruence].
      split; [|congruence].
      destruct (viewRef (handleSubmitChange now date raises st)) eqn:E;
        [|done].
      assert (is_Some (viewRef st)) as [? ?] by (apply Hv; eauto). congruence.
    + done.
    + destruct Hc as [->|(v & _ & _ & _ & ->)]; [done|apply record_length].
    + destruct Hc as [->|(v & _ & _ & Ht & ->)]; [done|].
      intros c [->|Hin]%record_elem; [done|by apply Hch].
  - first [exact HI|by split].
  - first [exact HI|by split].
  - first [exact HI|by split].
Qed.

Lemma SessionInv_run evs : ∀ st, SessionInv st → SessionInv (Session.run st evs).
Proof.
  induction evs as [|ev evs IH]; intros st H; [done|].
  apply IH. by apply SessionInv_step.
Qed.

(** X8: whatever happens in a session, the store holds at most ten
    changes and none of them has blank text. *)
Theorem store_never_holds_a_blank_change (evs : list Session.Event) :
  let st := Session.run initial evs in
  (length (all st) ≤ 10)%nat ∧
  ∀ c, c ∈ all st → ¬ blank (content c).
Proof.
  intros st.
  destruct (SessionInv_run evs initial SessionInv_initial) as [_ _ Hn Hc].
  split; [done|]. intros c Hin Hb. apply trim_blank in Hb.
  by destruct (Hc c Hin).
Qed.

Lemma username_step st ev :
  username st ≠ [] → username (Session.step st ev) = username st.
Proof.
  intros Hu.
  destruct ev as [n|input| | | |tr|now date raises| |status|]; simpl;
    try done.
  - unfold color_effect. by destruct (truthy (userColor st)).
  - apply truthy_nonempty in Hu. by rewrite Hu.
  - unfold editor_effect. destruct (editorRef st); simpl; [|done].
    by destruct (truthy (username st)).
  - unfold editor_cleanup.
    destruct (viewRef st) as [v|]; [destruct (currentView v)|]; simpl;
      by destruct (wsProviderRef st).
  - unfold status_cleanup. by destruct (wsProviderRef st).
  - unfold dispatchTransaction. destruct (viewRef st) as [v|]; [|done].
    by destruct (currentView v).
  - apply submit_frame.
Qed.

(** X9: the display name is set once: in a session it is empty or a
    trimmed, non-empty string; once it is set no event changes it; and
    every change in the store carries it as its user. *)
Theorem display_name_is_set_once (evs evs' : list Session.Event) :
  let st := Session.run initial evs in
  let st' := Session.run st evs' in
  trim (username st) = username st ∧
  (username st ≠ [] → username st' = username st) ∧
  (∀ c, c ∈ all st → user c = username st ∧ username st ≠ []) ∧
  (is_Some (viewRef st) → username st ≠ []).
Proof.
  intros st st'.
  destruct (SessionInv_run evs initial SessionInv_initial)
    as [Hanon Hname _ Hc]. fold st in Hanon, Hname, Hc.
  split; [done|]. split; [|split].
  - unfold st'. generalize st. induction evs' as [|ev evs'' IH]; intros s Hs;
      [done|].
    simpl. rewrite IH; rewrite username_step; done.
  - intros c Hin. split; [by apply Hc|]. intros Hnil.
    destruct (Hanon Hnil) as [_ He]. unfold all in Hin. rewrite He in Hin.
    by apply not_elem_of_nil in Hin.
  - intros [v Hv] Hnil. destruct (Hanon Hnil). congruence.
Qed.

(** X10: when clearing the editor raises, the handler has already
    recorded the change: the store gets it, an alert is shown, and the
    view, [hasContent], the confirmation and the awareness state stay
    as they were, so that the same text can be submitted again. *)
Theorem failed_submit_keeps_the_text
    (st : Component) (now date : Z) :
  accepted st →
  let st' := handleSubmitChange now date true st in
  accepted st' ∧
  viewRef st' = viewRef st ∧ hasContent st' = hasContent st ∧
  wsProviderRef st' = wsProviderRef st ∧
  showConfirmation st' = showConfirmation st ∧
  alerts st' = S (alerts st) ∧
  ∃ v, viewRef st = Some v ∧
       all st' = record {| id := toString now; user := username st;
                           color := userColor st;
                           content := textContent (doc v);
                           timestamp := date |} (all st).
Proof.
  intros (v & Hv & Hhc & Ht) st'. unfold st', handleSubmitChange.
  rewrite Hv, Hhc. simpl.
  pose proof Ht as Ht'. apply truthy_nonempty in Ht'. rewrite Ht'. simpl.
  split; [by exists v|]. repeat split; eauto.
Qed.

Lemma failed_submit_keeps_the_text_witness :
  let typed := dispatchTransaction (type_text hello_world) session in
  let st' := handleSubmitChange 5 6 true typed in
  content <$> all st' = [hello_world] ∧
  (doc <$> viewRef st') = Some [hello_world] ∧ alerts st' = 1%nat.
Proof.
  intros typed st'.
  assert (accepted typed) as Hacc.
  { eexists. split; [reflexivity|]. split; [reflexivity|]. by vm_compute. }
  destruct (failed_submit_keeps_the_text typed 5 6 Hacc)
    as (_ & Hv & _ & _ & _ & Ha & _).
  split; [reflexivity|]. split; [|exact Ha]. fold st' in Hv. by rewrite Hv.
Defined.

Lemma submit_without_content now date raises st :
  hasContent st = false → handleSubmitChange now date raises st = st.
Proof.
  intros Hhc. unfold handleSubmitChange. rewrite Hhc.
  by destruct (viewRef st).
Qed.

Lemma submit_refused_or_emptied now date st :
  (∀ now' date' raises', handleSubmitChange now' date' raises' st = st) ∨
  hasContent (handleSubmitChange now date false st) = false.
Proof.
  unfold handleSubmitChange.
  destruct (viewRef st) as [v|] eqn:Hv; [|by left].
  destruct (hasContent st) eqn:Hhc; simpl; [|by left].
  destruct (truthy (trim (textContent (doc v)))) eqn:Ht; simpl; [|by left].
  right. unfold dispatchTransaction, announce. simpl. rewrite Hv.
  destruct (currentView v); simpl; by destruct (wsProviderRef st).
Qed.

(** X11: after a submit that did not raise, a second submit changes
    nothing: one text is recorded once, however often the button is
    pressed. *)
Theorem second_submit_is_noop
    (st : Component) (now1 date1 now2 date2 : Z) (raises2 : bool) :
  let st1 := handleSubmitChange now1 date1 false st in
  handleSubmitChange now2 date2 raises2 st1 = st1.
Proof.
  intros st1. unfold st1.
  destruct (submit_refused_or_emptied now1 date1 st) as [Hno|Hempty].
  - by rewrite !Hno.
  - by apply submit_without_content.
Qed.

(** X12: unmounting a component that references a provider releases
    that provider twice, once in each cleanup; with the cleanups in the
    other order it is released once; in both orders no provider is
    referenced afterwards and a second unmount changes nothing. *)
Theorem unmount_releases_the_provider_twice (st : Component) (p : Provider) :
  wsProviderRef st = Some p →
  let other := status_cleanup (editor_cleanup st) in
  destroyLog (unmount st) = destroyLog st ++ [pid p; pid p] ∧
  destroyLog other = destroyLog st ++ [pid p] ∧
  wsProviderRef (unmount st) = None ∧
  wsProviderRef other = None ∧
  unmount (unmount st) = unmount st ∧
  unmount other = other ∧
  status_cleanup (editor_cleanup other) = other.
Proof.
  intros Hp. unfold unmount, status_cleanup, editor_cleanup. rewrite Hp.
  destruct (viewRef st) as [v|] eqn:Hv; [destruct (currentView v) eqn:Hc|];
    repeat (progress (simpl; rewrite ?Hv, ?Hc, ?Hp));
    rewrite <- ?app_assoc; done.
Qed.

Lemma unmount_releases_the_provider_twice_witness :
  destroyLog (unmount session) = [0; 0]%nat ∧
  destroyLog (status_cleanup (editor_cleanup session)) = [0]%nat ∧
  wsProviderRef (unmount session) = None ∧
  wsProviderRef (status_cleanup (editor_cleanup session)) = None.
Proof.
  destruct (unmount_releases_the_provider_twice session
              {| pid := 0; aw_user := Some (lit "Ann", lit "#3730a3");
                 aw_lastChange := None |}) as (H1 & H2 & H3 & H4 & _);
    [reflexivity|].
  split; [exact H1|]. split; [exact H2|]. split; [exact H3|exact H4].
Defined.

(** X15: once the cleanup of the editor effect has run, the view no
    longer takes transactions: dispatching one changes nothing. *)
Theorem dispatch_after_cleanup_is_ignored (st : Component) (tr : Transaction) :
  dispatchTransaction tr (editor_cleanup st) = editor_cleanup st.
Proof.
  unfold editor_cleanup, dispatchTransaction.
  destruct (viewRef st) as [v|] eqn:Hv; [destruct (currentView v) eqn:Hc|];
    simpl; destruct (wsProviderRef st); simpl; rewrite ?Hv, ?Hc; done.
Qed.

End session_more.

Section login_more.

Lemma trimStart_blank_prefix l s : blank l → trimStart (l ++ s) = trimStart s.
Proof.
  intros Hl. induction l as [|c l IH]; [done|]. simpl.
  rewrite (Hl c) by left. apply IH. intros c' Hc'. apply Hl. by right.
Qed.

Lemma trimEnd_blank_suffix s r : blank r → trimEnd (s ++ r) = trimEnd s.
Proof.
  intros Hr. unfold trimEnd. rewrite reverse_app, trimStart_blank_prefix; [done|].
  intros c Hc. apply Hr. by apply elem_of_reverse.
Qed.

Lemma trim_surrounded l s r : blank l → blank r → trim (l ++ s ++ r) = trim s.
Proof.
  intros Hl Hr. unfold trim. rewrite trimStart_blank_prefix by done.
  destruct (trimStart_decomp s) as (l' & Hs & Hl').
  destruct (trimStart s) as [|c t] eqn:Ht.
  - assert (trimStart (s ++ r) = []) as ->; [|done].
    apply trimStart_nil. rewrite app_nil_r in Hs. subst l'.
    intros c [?|?]%elem_of_app; auto.
  - pose proof (trimStart_head _ _ _ Ht) as Hc.
    rewrite Hs at 1. rewrite <- app_assoc, trimStart_blank_prefix by done.
    rewrite <- app_comm_cons, trimStart_fixed by done.
    by rewrite app_comm_cons, trimEnd_blank_suffix.
Qed.

(** X14: white space around the name does not matter to the login:
    an input and the same input between blank strings call [onLogin]
    with the same name, or both do not call it. *)
Theorem login_ignores_surrounding_space (l s r : jsstring) :
  blank l → blank r →
  Login.handleSubmit (l ++ s ++ r) = Login.handleSubmit s.
Proof.
  intros Hl Hr. unfold Login.handleSubmit. by rewrite trim_surrounded.
Qed.

Lemma login_ignores_surrounding_space_witness :
  Login.handleSubmit (lit "  Ann Lee  ") = Login.handleSubmit (lit "Ann Lee").
Proof.
  assert (blank (lit "  ")) as Hb.
  { intros c Hc. vm_compute in Hc.
    repeat (apply elem_of_cons in Hc as [->|Hc]; [reflexivity|]).
    by apply not_elem_of_nil in Hc. }
  exact (login_ignores_surrounding_space (lit "  ") (lit "Ann Lee") (lit "  ")
           Hb Hb).
Defined.

End login_more.

Section submit_more.

Import Editor.

(** X16: an accepted submit that does not raise, on a view that still
    takes transactions: the text of the view, as it is, becomes the
    content of the first change of the store; the view is left with one
    empty block; [hasContent] is false and the confirmation shown; with
    a provider, its [lastChange] field gets the id, user, timestamp and
    content of that change, and the rest of the awareness state stays. *)
Theorem accepted_submit_records_clears_announces
    (st : Component) (v : View) (now date : Z) :
  viewRef st = Some v → currentView v = true →
  hasContent st = true → ¬ blank (textContent (doc v)) →
  let st' := handleSubmitChange now date false st in
  let c := {| id := toString now; user := username st;
              color := userColor st; content := textContent (doc v);
              timestamp := date |} in
  all st' = record c (all st) ∧
  viewRef st' = Some {| doc := emptyDoc; currentView := true;
                        viewDestroyed := viewDestroyed v |} ∧
  hasContent st' = false ∧ showConfirmation st' = true ∧
  alerts st' = alerts st ∧
  wsProviderRef st' =
    (λ p, {| pid := pid p; aw_user := aw_user p;
             aw_lastChange :=
               Some {| lc_id := id c; lc_user := user c;
                       lc_timestamp := timestamp c;
                       lc_content := content c |} |}) <$> wsProviderRef st.
Proof.
  intros Hv Hcur Hhc Hnb st' c. unfold st', handleSubmitChange.
  rewrite Hv, Hhc. simpl.
  assert (truthy (trim (textContent (doc v))) = true) as ->.
  { apply truthy_nonempty. intros He. by apply Hnb, trim_blank. }
  simpl. unfold dispatchTransaction, announce. simpl. rewrite Hv, Hcur. simpl.
  destruct (wsProviderRef st) eqn:Hp; unfold all, c; simpl; rewrite ?Hp;
    repeat split; done.
Qed.

Lemma accepted_submit_records_clears_announces_witness :
  let typed := dispatchTransaction (type_text (lit " two  words ")) session in
  let st' := handleSubmitChange 7 8 false typed in
  content <$> all st' = [lit " two  words "] ∧
  (doc <$> viewRef st') = Some emptyDoc ∧ hasContent st' = false.
Proof.
  intros typed st'.
  destruct (accepted_submit_records_clears_announces typed
              {| doc := [lit " two  words "]; currentView := true;
                 viewDestroyed := false |} 7 8)
    as (Hall & Hv & Hhc & _); try reflexivity.
  - intros Hb. apply trim_blank in Hb. by vm_compute in Hb.
  - fold st' in Hall, Hv, Hhc. split; [by rewrite Hall|].
    split; [by rewrite Hv|exact Hhc].
Defined.

End submit_more.
